(** * Wrapper classes for TV series items: a model of [model/television.py]

    The Python module wraps pywikibot [ItemPage] objects in three classes,
    [Series], [Season] and [Episode], deriving from [BaseType].  This file
    embeds the module in Rocq and proves properties of the parent lookup,
    of the ordinals, of the successor search [next] and of the constraint
    lists.

    Conventions.
    - A Python [dict] is a [gmap]; [d[k]] raises [KeyError] and [l[0]]
      raises [IndexError] as in Python.
    - Exceptions are the constructors of [Exn]; a property that only reads
      [self.claims] is a function into [Result], a method that talks to
      the item store or to the query service is a computation in [M].
    - The item store and the SPARQL endpoint are part of the [World] that
      [M] threads; every call a method makes to either is appended to the
      world's log.
    - [label], [repo], [from_id] and [__str__] take no part in the
      properties below and are left out. *)

From Stdlib Require Import ZArith Ascii DecimalString DecimalPos.
From stdpp Require Import gmap strings list.

Local Open Scope string_scope.

(** ** Python built-ins used by the module *)

Module Py.

(** The exceptions the module can raise.  [NoPageError] is what
    [ItemPage.get()] raises for an item the store does not have. *)
Inductive Exn :=
  | KeyError (key : string)
  | IndexError
  | ValueError
  | TypeError
  | AttributeError
  | NoPageError (title : string).

Inductive Result (A : Type) :=
  | Ok (a : A)
  | Raise (e : Exn).
Arguments Ok {A} a.
Arguments Raise {A} e.

Definition rbind {A B} (r : Result A) (k : A → Result B) : Result B :=
  match r with
  | Ok a => k a
  | Raise e => Raise e
  end.

(** [k in d] *)
Definition contains {V} (d : gmap string V) (k : string) : bool :=
  bool_decide (is_Some (d !! k)).

(** [d[k]] *)
Definition getitem {V} (d : gmap string V) (k : string) : Result V :=
  match d !! k with
  | Some v => Ok v
  | None => Raise (KeyError k)
  end.

(** [l[0]] *)
Definition first {A} (l : list A) : Result A :=
  match l with
  | x :: _ => Ok x
  | [] => Raise IndexError
  end.

(** Characters [int] treats as blanks around a number (the ASCII ones:
    TAB, LF, VT, FF, CR and the space). *)
Definition isspace (c : ascii) : bool :=
  let n := nat_of_ascii c in
  ((9 <=? n) && (n <=? 13) || (n =? 32))%nat.

Definition digit (c : ascii) : option Z :=
  let n := nat_of_ascii c in
  if ((48 <=? n) && (n <=? 57))%nat then Some (Z.of_nat n - 48)%Z else None.

Fixpoint lstrip (l : list ascii) : list ascii :=
  match l with
  | c :: l' => if isspace c then lstrip l' else l
  | [] => []
  end.

Definition strip (l : list ascii) : list ascii :=
  rev (lstrip (rev (lstrip l))).

(** Decimal digits, single underscores allowed between two digits
    ([after_digit] says that the previous character was a digit). *)
Fixpoint digits (acc : Z) (after_digit : bool) (l : list ascii) : option Z :=
  match l with
  | [] => if after_digit then Some acc else None
  | c :: l' =>
      match digit c with
      | Some d => digits (10 * acc + d)%Z true l'
      | None =>
          if (nat_of_ascii c =? 95)%nat && after_digit
          then digits acc false l'
          else None
      end
  end.

(** [int(s)] for a [str] of ASCII characters: blanks around, an optional
    sign, then decimal digits.  (Outside the model: the digits and blanks
    of Unicode beyond ASCII, which Python accepts too, and CPython's cap
    on the number of digits.) *)
Definition int (s : string) : Result Z :=
  let body :=
    match strip (String.list_ascii_of_string s) with
    | c :: l' =>
        if (nat_of_ascii c =? 43)%nat then digits 0 false l'
        else if (nat_of_ascii c =? 45)%nat then Z.opp <$> digits 0 false l'
        else digits 0 false (c :: l')
    | [] => None
    end in
  match body with
  | Some n => Ok n
  | None => Raise ValueError
  end.

(** [str(n)] for an [int], as an f-string formats it. *)
Definition str_of_int (n : Z) : string :=
  NilZero.string_of_int (Z.to_int n).

(** [str(x)] for a value that may be [None]. *)
Definition str_of_optional (o : option string) : string :=
  match o with
  | Some s => s
  | None => "None"
  end.

End Py.

Export Py.

(** ** Vocabulary and query builder

    [properties.wikidata_properties] (the objects [wp.X], each with a
    [pid]) and [sparql.query_builder.generate_sparql_query] are imported by
    the module; the methods below only need the identifiers and the query
    text, so both are parameters of the development. *)

Inductive WikidataProperty :=
  | INSTANCE_OF
  | TITLE
  | PART_OF_THE_SERIES
  | SEASON
  | ORIGINAL_NETWORK
  | COUNTRY_OF_ORIGIN
  | ORIGNAL_LANGUAGE_OF_FILM_OR_TV_SHOW
  | PRODUCTION_COMPANY
  | PUBLICATION_DATE
  | DIRECTOR
  | FOLLOWED_BY
  | FOLLOWS
  | DURATION
  | IMDB_ID
  | HAS_PART
  | NUMBER_OF_EPISODES
  | SERIES_ORDINAL.

Class Vocabulary := {
  pid : WikidataProperty → string;
  generate_sparql_query : list (string * string) → string
}.

(** ** pywikibot data

    An [ItemPage] is a handle on an item; its content is in the store until
    [get()] loads it.  A statement of an item-valued property holds the
    [ItemPage] it points at and its qualifiers; the series-ordinal
    qualifier is string-valued.  (A statement with an unknown or missing
    value, whose [getTarget()] is [None], is outside this model.) *)

Record ItemPage := { page_title : string }.

Record Qualifier := { qualifier_getTarget : string }.

Record Claim := {
  getTarget : ItemPage;
  qualifiers : gmap string (list Qualifier)
}.

Abbreviation Claims := (gmap string (list Claim)).

(** ** The world: item store, query service and the log of calls *)

Inductive Event :=
  | EvGet (title : string)      (* ItemPage.get() *)
  | EvSite                      (* Site().data_repository() *)
  | EvQuery (query : string)    (* WikidataSPARQLPageGenerator(query) *)
  | EvYield (page : ItemPage).  (* one element taken from a generator *)

Record World := {
  items : gmap string Claims;
  endpoint : string → list ItemPage;
  log : list Event
}.

Definition M (A : Type) : Type := World → Result A * World.

Definition ret {A} (a : A) : M A := λ w, (Ok a, w).

Definition bind {A B} (m : M A) (k : A → M B) : M B :=
  λ w, match m w with
       | (Ok a, w') => k a w'
       | (Raise e, w') => (Raise e, w')
       end.

Definition lift {A} (r : Result A) : M A := λ w, (r, w).

Definition emit (ev : Event) : M unit :=
  λ w, (Ok tt, {| items := items w; endpoint := endpoint w; log := log w ++ [ev] |}).

Notation "'let*' x ':=' c 'in' k" := (bind c (λ x, k))
  (at level 10, x pattern, c at level 100, k at level 200).

Notation "'let?' x ':=' c 'in' k" := (rbind c (λ x, k))
  (at level 10, x pattern, c at level 100, k at level 200).

(** [itempage.get()]: one read of the store. *)
Definition ItemPage_get (itempage : ItemPage) : M Claims :=
  let* _ := emit (EvGet (page_title itempage)) in
  λ w, (match items w !! page_title itempage with
        | Some content => Ok content
        | None => Raise (NoPageError (page_title itempage))
        end, w).

(** [Site().data_repository()] *)
Definition Site_data_repository : M unit := emit EvSite.

(** [WikidataSPARQLPageGenerator(query)]: one query to the endpoint; the
    generator it returns is the sequence of the endpoint's answers. *)
Definition WikidataSPARQLPageGenerator (query : string) : M (list ItemPage) :=
  let* _ := emit (EvQuery query) in
  λ w, (Ok (endpoint w query), w).

(** [next(gen, None)].  The methods never touch [gen] again, so the rest
    of the generator is dropped. *)
Definition next_or_None (gen : list ItemPage) : M (option ItemPage) :=
  match gen with
  | [] => ret None
  | page :: _ => let* _ := emit (EvYield page) in ret (Some page)
  end.

(** Number of queries, and of generator elements taken, in a log. *)
Definition is_query (ev : Event) : bool :=
  match ev with EvQuery _ => true | _ => false end.

Definition is_yield (ev : Event) : bool :=
  match ev with EvYield _ => true | _ => false end.

Definition queries (l : list Event) : nat := length (filter is_query l).

Definition yields (l : list Event) : nat := length (filter is_yield l).

(** ** class BaseType *)

Inductive Kind := KSeries | KSeason | KEpisode.

(** An instance: its class, [self._itempage], and the claims that the
    [get()] of [__init__] loaded ([self._itempage.claims]). *)
Record BaseType := {
  kind : Kind;
  itempage : ItemPage;
  claims : Claims
}.

Module BaseType.

(** [cls(itempage)], that is [__init__(itempage, repo=None)]. *)
Definition new (cls : Kind) (itempage : ItemPage) : M BaseType :=
  let* content := ItemPage_get itempage in
  let* _ := Site_data_repository in
  ret {| kind := cls; itempage := itempage; claims := content |}.

Definition title (self : BaseType) : string := page_title (itempage self).

Definition parent (self : BaseType) : M (option BaseType) := ret None.

End BaseType.

(** The line break and the double quote of the query texts. *)
Definition newline : string := String (ascii_of_nat 10) EmptyString.

Definition dquote : string := String (ascii_of_nat 34) EmptyString.

(** ** class Constraint (module [constraints])

    The module builds its constraint lists by calling the four factories
    of [constraints]; a constraint is represented by the call that built
    it. *)
Inductive Constraint :=
  | has_property (prop : WikidataProperty)
  | inherits_property (prop : WikidataProperty)
  | follows_something
  | is_followed_by_something.

(** ** class Episode *)

Module Episode.
Section Methods.
Context `{Vocabulary}.

Definition parent (self : BaseType) : M (option BaseType) :=
  let* season_itempage :=
    lift (let? l := getitem (claims self) (pid SEASON) in
          let? c := first l in
          Ok (getTarget c)) in
  let* season := BaseType.new KSeason season_itempage in
  ret (Some season).

Definition part_of_the_series (self : BaseType) : Result (option string) :=
  if negb (contains (claims self) (pid PART_OF_THE_SERIES)) then Ok None
  else
    let? l := getitem (claims self) (pid PART_OF_THE_SERIES) in
    let? c := first l in
    Ok (Some (page_title (getTarget c))).

Definition season (self : BaseType) : Result (option string) :=
  if negb (contains (claims self) (pid SEASON)) then Ok None
  else
    let? l := getitem (claims self) (pid SEASON) in
    let? c := first l in
    Ok (Some (page_title (getTarget c))).

Definition ordinal_in_series (self : BaseType) : Result (option Z) :=
  if negb (contains (claims self) (pid PART_OF_THE_SERIES)) then Ok None
  else
    let? l := getitem (claims self) (pid PART_OF_THE_SERIES) in
    let? series_claim := first l in
    if negb (contains (qualifiers series_claim) (pid SERIES_ORDINAL)) then Ok None
    else
      let? ql := getitem (qualifiers series_claim) (pid SERIES_ORDINAL) in
      let? q := first ql in
      let? n := int (qualifier_getTarget q) in
      Ok (Some n).

Definition ordinal_in_season (self : BaseType) : Result (option Z) :=
  if negb (contains (claims self) (pid SEASON)) then Ok None
  else
    let? l := getitem (claims self) (pid SEASON) in
    let? series_claim := first l in
    if negb (contains (qualifiers series_claim) (pid SERIES_ORDINAL)) then Ok None
    else
      let? ql := getitem (qualifiers series_claim) (pid SERIES_ORDINAL) in
      let? q := first ql in
      let? n := int (qualifier_getTarget q) in
      Ok (Some n).

(** The f-string of [next_in_season]. *)
Definition season_query (series season : option string) (ordinal : Z) : string :=
  "SELECT ?item WHERE {" +:+ newline +:+
  "            ?item wdt:" +:+ pid PART_OF_THE_SERIES +:+ " wd:" +:+
    str_of_optional series +:+ "." +:+ newline +:+
  "            ?item wdt:" +:+ pid SEASON +:+ " wd:" +:+
    str_of_optional season +:+ "." +:+ newline +:+
  "            ?item p:" +:+ pid SEASON +:+ "/pq:" +:+ pid SERIES_ORDINAL +:+ " " +:+
    dquote +:+ str_of_int (ordinal + 1) +:+ dquote +:+ newline +:+
  "            }" +:+ newline +:+
  "        ".

(** The f-string of [next_in_series]. *)
Definition series_query (series : option string) (ordinal : Z) : string :=
  "SELECT ?item WHERE {" +:+ newline +:+
  "            ?item wdt:" +:+ pid PART_OF_THE_SERIES +:+ " wd:" +:+
    str_of_optional series +:+ "." +:+ newline +:+
  "            ?item p:" +:+ pid PART_OF_THE_SERIES +:+ "/pq:" +:+ pid SERIES_ORDINAL +:+ " " +:+
    dquote +:+ str_of_int (ordinal + 1) +:+ dquote +:+ newline +:+
  "            }" +:+ newline +:+
  "        ".

Definition next_in_season (self : BaseType) : M (option BaseType) :=
  let* guard := lift (ordinal_in_season self) in
  match guard with
  | None => ret None
  | Some _ =>
      let* series := lift (part_of_the_series self) in
      let* season := lift (season self) in
      let* ordinal := lift (ordinal_in_season self) in
      match ordinal with
      | None => lift (Raise TypeError)
      | Some n =>
          let query := season_query series season n in
          let* gen := WikidataSPARQLPageGenerator query in
          let* next_episode_itempage := next_or_None gen in
          match next_episode_itempage with
          | None => ret None
          | Some page =>
              let* episode := BaseType.new KEpisode page in
              ret (Some episode)
          end
      end
  end.

Definition next_in_series (self : BaseType) : M (option BaseType) :=
  let* guard := lift (ordinal_in_series self) in
  match guard with
  | None => ret None
  | Some _ =>
      let* series := lift (part_of_the_series self) in
      let* ordinal := lift (ordinal_in_series self) in
      match ordinal with
      | None => lift (Raise TypeError)
      | Some n =>
          let query := series_query series n in
          let* gen := WikidataSPARQLPageGenerator query in
          let* next_episode_itempage := next_or_None gen in
          match next_episode_itempage with
          | None => ret None
          | Some page =>
              let* episode := BaseType.new KEpisode page in
              ret (Some episode)
          end
      end
  end.

Definition next (self : BaseType) : M (option BaseType) :=
  if contains (claims self) (pid FOLLOWED_BY) then
    let* next_episode_itempage :=
      lift (let? l := getitem (claims self) (pid FOLLOWED_BY) in
            let? c := first l in
            Ok (getTarget c)) in
    let* episode := BaseType.new KEpisode next_episode_itempage in
    ret (Some episode)
  else
    let query := generate_sparql_query [(pid FOLLOWS, BaseType.title self)] in
    let* gen := WikidataSPARQLPageGenerator query in
    let* is_followed_by := next_or_None gen in
    match is_followed_by with
    | Some page =>
        let* episode := BaseType.new KEpisode page in
        ret (Some episode)
    | None =>
        let* in_series := lift (ordinal_in_series self) in
        match in_series with
        | Some _ => next_in_series self
        | None =>
            let* in_season := lift (ordinal_in_season self) in
            match in_season with
            | Some _ => next_in_season self
            | None => ret None
            end
        end
    end.

Definition _property_constraints (self : BaseType) : list Constraint :=
  (has_property <$> [
     INSTANCE_OF;
     TITLE;
     PART_OF_THE_SERIES;
     SEASON;
     ORIGINAL_NETWORK;
     COUNTRY_OF_ORIGIN;
     ORIGNAL_LANGUAGE_OF_FILM_OR_TV_SHOW;
     PRODUCTION_COMPANY;
     PUBLICATION_DATE;
     DIRECTOR;
     FOLLOWED_BY;
     DURATION;
     IMDB_ID
   ]) ++ [
     follows_something;
     is_followed_by_something
   ].

Definition _inheritance_constraints (self : BaseType) : list Constraint :=
  inherits_property <$> [
    ORIGINAL_NETWORK;
    COUNTRY_OF_ORIGIN;
    ORIGNAL_LANGUAGE_OF_FILM_OR_TV_SHOW;
    PRODUCTION_COMPANY
  ].

Definition constraints (self : BaseType) : list Constraint :=
  _property_constraints self ++ _inheritance_constraints self.

End Methods.
End Episode.

(** ** class Season *)

Module Season.
Section Methods.
Context `{Vocabulary}.

Definition parent (self : BaseType) : M (option BaseType) :=
  let* series_itempage :=
    lift (let? l := getitem (claims self) (pid PART_OF_THE_SERIES) in
          let? c := first l in
          Ok (getTarget c)) in
  let* series := BaseType.new KSeries series_itempage in
  ret (Some series).

Definition part_of_the_series (self : BaseType) : Result (option string) :=
  if negb (contains (claims self) (pid PART_OF_THE_SERIES)) then Ok None
  else
    let? l := getitem (claims self) (pid PART_OF_THE_SERIES) in
    let? c := first l in
    Ok (Some (page_title (getTarget c))).

Definition ordinal_in_series (self : BaseType) : Result (option Z) :=
  if negb (contains (claims self) (pid PART_OF_THE_SERIES)) then Ok None
  else
    let? l := getitem (claims self) (pid PART_OF_THE_SERIES) in
    let? series_claim := first l in
    if negb (contains (qualifiers series_claim) (pid SERIES_ORDINAL)) then Ok None
    else
      let? ql := getitem (qualifiers series_claim) (pid SERIES_ORDINAL) in
      let? q := first ql in
      let? n := int (qualifier_getTarget q) in
      Ok (Some n).

(** The f-string of [next_in_series]. *)
Definition series_query (series : option string) (ordinal : Z) : string :=
  "SELECT ?item WHERE {" +:+ newline +:+
  "            ?item wdt:" +:+ pid PART_OF_THE_SERIES +:+ " wd:" +:+
    str_of_optional series +:+ "." +:+ newline +:+
  "            ?item p:" +:+ pid PART_OF_THE_SERIES +:+ "/pq:" +:+ pid SERIES_ORDINAL +:+ " " +:+
    dquote +:+ str_of_int (ordinal + 1) +:+ dquote +:+ newline +:+
  "            }" +:+ newline +:+
  "        ".

Definition next_in_series (self : BaseType) : M (option BaseType) :=
  let* guard := lift (ordinal_in_series self) in
  match guard with
  | None => ret None
  | Some _ =>
      let* series := lift (part_of_the_series self) in
      let* ordinal := lift (ordinal_in_series self) in
      match ordinal with
      | None => lift (Raise TypeError)
      | Some n =>
          let query := series_query series n in
          let* gen := WikidataSPARQLPageGenerator query in
          let* next_episode_itempage := next_or_None gen in
          match next_episode_itempage with
          | None => ret None
          | Some page =>
              let* season := BaseType.new KSeason page in
              ret (Some season)
          end
      end
  end.

Definition next (self : BaseType) : M (option BaseType) :=
  if contains (claims self) (pid FOLLOWED_BY) then
    let* next_episode_itempage :=
      lift (let? l := getitem (claims self) (pid FOLLOWED_BY) in
            let? c := first l in
            Ok (getTarget c)) in
    let* season := BaseType.new KSeason next_episode_itempage in
    ret (Some season)
  else
    let query := generate_sparql_query [(pid FOLLOWS, BaseType.title self)] in
    let* gen := WikidataSPARQLPageGenerator query in
    let* is_followed_by := next_or_None gen in
    match is_followed_by with
    | Some page =>
        let* season := BaseType.new KSeason page in
        ret (Some season)
    | None =>
        let* in_series := lift (ordinal_in_series self) in
        match in_series with
        | Some _ => next_in_series self
        | None => ret None
        end
    end.

Definition _property_constraints (self : BaseType) : list Constraint :=
  (has_property <$> [
     INSTANCE_OF;
     PART_OF_THE_SERIES;
     ORIGINAL_NETWORK;
     COUNTRY_OF_ORIGIN;
     ORIGNAL_LANGUAGE_OF_FILM_OR_TV_SHOW;
     PRODUCTION_COMPANY;
     FOLLOWS;
     HAS_PART;
     NUMBER_OF_EPISODES
   ]) ++ [
     is_followed_by_something
   ].

Definition _inheritance_constraints (self : BaseType) : list Constraint :=
  inherits_property <$> [
    ORIGINAL_NETWORK;
    COUNTRY_OF_ORIGIN;
    ORIGNAL_LANGUAGE_OF_FILM_OR_TV_SHOW;
    PRODUCTION_COMPANY
  ].

Definition constraints (self : BaseType) : list Constraint :=
  _property_constraints self ++ _inheritance_constraints self.

End Methods.
End Season.

(** ** class Series *)

Module Series.

Definition _property_constraints (self : BaseType) : list Constraint :=
  has_property <$> [
    INSTANCE_OF;
    TITLE;
    ORIGINAL_NETWORK;
    COUNTRY_OF_ORIGIN;
    ORIGNAL_LANGUAGE_OF_FILM_OR_TV_SHOW;
    PRODUCTION_COMPANY;
    IMDB_ID
  ].

Definition constraints (self : BaseType) : list Constraint :=
  _property_constraints self.

(** [parent] is inherited from [BaseType]. *)
Definition parent (self : BaseType) : M (option BaseType) :=
  BaseType.parent self.

End Series.

(** ** Attribute lookup by class

    [self.parent], [self.next], [self.ordinal_in_series],
    [self.next_in_series] and [self.constraints] as Python resolves them
    on an instance.  [Series] defines no [next], no [ordinal_in_series]
    and no [next_in_series]. *)

Section Dispatch.
Context `{Vocabulary}.

Definition parent (self : BaseType) : M (option BaseType) :=
  match kind self with
  | KEpisode => Episode.parent self
  | KSeason => Season.parent self
  | KSeries => Series.parent self
  end.

Definition next (self : BaseType) : M (option BaseType) :=
  match kind self with
  | KEpisode => Episode.next self
  | KSeason => Season.next self
  | KSeries => lift (Raise AttributeError)
  end.

Definition ordinal_in_series (self : BaseType) : Result (option Z) :=
  match kind self with
  | KEpisode => Episode.ordinal_in_series self
  | KSeason => Season.ordinal_in_series self
  | KSeries => Raise AttributeError
  end.

Definition next_in_series (self : BaseType) : M (option BaseType) :=
  match kind self with
  | KEpisode => Episode.next_in_series self
  | KSeason => Season.next_in_series self
  | KSeries => lift (Raise AttributeError)
  end.

Definition constraints (self : BaseType) : list Constraint :=
  match kind self with
  | KEpisode => Episode.constraints self
  | KSeason => Season.constraints self
  | KSeries => Series.constraints self
  end.

End Dispatch.

(** ** Evaluating constraints *)

Module Constraints.
Section Validate.
Context `{Vocabulary}.

(** Modelled from the spec: the [constraints] module, which holds what a
    constraint checks, is not part of the sources.  The inherits-fact rule
    passes iff the property is present on the entity itself, or on its
    parent, or further up the parent chain; it examines at most [depth]
    entities (the spec's safety bound is 3, Episode, Season, Series). *)
Fixpoint inherits (depth : nat) (prop : WikidataProperty) (self : BaseType) : M bool :=
  match depth with
  | O => ret false
  | S depth' =>
      if contains (claims self) (pid prop) then ret true
      else
        let* up := parent self in
        match up with
        | None => ret false
        | Some ancestor => inherits depth' prop ancestor
        end
  end.

(** Modelled from the spec: the [constraints] module is not part of the
    sources.  has-fact passes iff the property is among the entity's
    facts; relation-exists passes iff the follows (resp. followed-by) fact
    is present on the entity, whatever its target. *)
Definition validate (c : Constraint) (self : BaseType) : M bool :=
  match c with
  | has_property prop => ret (contains (claims self) (pid prop))
  | inherits_property prop => inherits 3 prop self
  | follows_something => ret (contains (claims self) (pid FOLLOWS))
  | is_followed_by_something => ret (contains (claims self) (pid FOLLOWED_BY))
  end.

(** Modelled from the spec: the code that runs a list of constraints is
    not part of the sources.  The constraints are evaluated one after the
    other, in the order of the list; a lookup that raises ends the
    evaluation. *)
Fixpoint validate_all (cs : list Constraint) (self : BaseType) : M (list bool) :=
  match cs with
  | [] => ret []
  | c :: cs' =>
      let* b := validate c self in
      let* bs := validate_all cs' self in
      ret (b :: bs)
  end.

(** Modelled from the spec: the caller that evaluates [self.constraints]
    is not part of the sources.  The outcome is the pass/fail result of
    each constraint of the list, in order. *)
Definition evaluate (self : BaseType) : M (list bool) :=
  validate_all (constraints self) self.

End Validate.
End Constraints.

(** ** Error taxonomy *)

(** Modelled from the spec: the module defines no exception classes of its
    own; the spec names the failures [NotFoundError] (an identifier that
    does not resolve in the store) and [MalformedDataError] (an expected
    fact or qualifier that is absent or not parseable as the expected
    type). *)
Inductive SpecError :=
  | NotFoundError
  | MalformedDataError.

(** Modelled from the spec: the failure of the spec's taxonomy that a
    Python exception of the module stands for; the module itself has no
    such table. *)
Definition classify (e : Exn) : SpecError :=
  match e with
  | NoPageError _ => NotFoundError
  | KeyError _ | IndexError | ValueError | TypeError | AttributeError =>
      MalformedDataError
  end.

(** ** Notions used in the statements *)

(** The world after the events [evs] have been logged. *)
Definition logged (w : World) (evs : list Event) : World :=
  {| items := items w; endpoint := endpoint w; log := log w ++ evs |}.

(** The query of the reverse lookup: items whose follows fact points at
    this one. *)
Definition follows_query `{Vocabulary} (self : BaseType) : string :=
  generate_sparql_query [(pid FOLLOWS, BaseType.title self)].

(** The tail shared by every query strategy: one query, the first element
    of its generator if any, wrapped in [cls]. *)
Definition take_first (cls : Kind) (query : string) : M (option BaseType) :=
  let* gen := WikidataSPARQLPageGenerator query in
  let* first_itempage := next_or_None gen in
  match first_itempage with
  | None => ret None
  | Some page =>
      let* successor := BaseType.new cls page in
      ret (Some successor)
  end.

(** What one query whose first answer is taken comes to, written out:
    after the query, nothing when the endpoint has no answer; otherwise
    the first answer is taken from the generator, its item is read from
    the store and wrapped in [cls], or the read raises.  Answers after the
    first play no part. *)
Definition first_answer_outcome (cls : Kind) (query : string) (w : World)
    : Result (option BaseType) * World :=
  match endpoint w query with
  | [] => (Ok None, logged w [EvQuery query])
  | p :: _ =>
      match items w !! page_title p with
      | Some content =>
          (Ok (Some {| kind := cls; itempage := p; claims := content |}),
           logged w [EvQuery query; EvYield p; EvGet (page_title p); EvSite])
      | None =>
          (Raise (NoPageError (page_title p)),
           logged w [EvQuery query; EvYield p; EvGet (page_title p)])
      end
  end.

(** The contract of an ordinal property that reads the series-ordinal
    qualifier of the first parent-link fact [link]: absent without the
    fact or without the qualifier, the integer when the qualifier parses,
    an error when it does not. *)
Definition reads_series_ordinal `{Vocabulary}
    (link : WikidataProperty) (ordinal : BaseType → Result (option Z)) : Prop :=
  ∀ self : BaseType,
    (claims self !! pid link = None → ordinal self = Ok None) ∧
    (∀ c cs, claims self !! pid link = Some (c :: cs) →
       (qualifiers c !! pid SERIES_ORDINAL = None → ordinal self = Ok None) ∧
       (∀ q qs, qualifiers c !! pid SERIES_ORDINAL = Some (q :: qs) →
          (∀ n, int (qualifier_getTarget q) = Ok n →
                ordinal self = Ok (Some n)) ∧
          (∀ e, int (qualifier_getTarget q) = Raise e →
                ordinal self = Raise ValueError ∧
                classify ValueError = MalformedDataError))).

(** The fall-through reading of the strategy order, for an Episode:
    after an empty reverse lookup and a series strategy that found
    nothing, [next] is the season strategy whenever the ordinal in the
    season is resolvable. *)
Definition falls_through_to_season `{Vocabulary} (self : BaseType) (w : World) : Prop :=
  claims self !! pid FOLLOWED_BY = None →
  endpoint w (follows_query self) = [] →
  ∀ n m after_series,
    Episode.ordinal_in_series self = Ok (Some n) →
    Episode.next_in_series self (logged w [EvQuery (follows_query self)])
      = (Ok None, after_series) →
    Episode.ordinal_in_season self = Ok (Some m) →
    Episode.next self w = Episode.next_in_season self after_series.

(** An outcome reached from [w] by exactly one query, after which at most
    one element was taken. *)
Definition one_query {A} (w : World) (outcome : Result A * World) : Prop :=
  ∃ (query : string) (added : list Event),
    log outcome.2 = (log w ++ EvQuery query :: added)%list ∧
    queries added = 0%nat ∧ (yields added ≤ 1)%nat.

(** An outcome reached from [w] by at most one query and at most one
    element taken. *)
Definition at_most_one_query {A} (w : World) (outcome : Result A * World) : Prop :=
  ∃ added : list Event,
    log outcome.2 = (log w ++ added)%list ∧
    (queries added ≤ 1)%nat ∧ (yields added ≤ 1)%nat.

(** The world in which the endpoint gives only the first of its answers
    to each query. *)
Definition truncated (w : World) : World :=
  {| items := items w; endpoint := λ q, take 1 (endpoint w q); log := log w |}.

(** [m] does not see the answers after the first. *)
Definition first_answer_only {A} (m : M A) : Prop :=
  ∀ w, m (truncated w) = prod_map id truncated (m w).

(** An outcome of [next] reached from [w] by the reverse lookup [query]
    first: the query is the first thing logged; after it come at most one
    more query and at most one element taken, and no further query when
    the lookup had an answer. *)
Definition reverse_lookup_first {A}
    (w : World) (query : string) (outcome : Result A * World) : Prop :=
  ∃ added : list Event,
    log outcome.2 = (log w ++ EvQuery query :: added)%list ∧
    (queries added ≤ 1)%nat ∧ (yields added ≤ 1)%nat ∧
    (endpoint w query ≠ [] → queries added = 0%nat).

#[global] Instance WikidataProperty_eq_dec : EqDecision WikidataProperty.
Proof. solve_decision. Defined.

#[global] Instance Constraint_eq_dec : EqDecision Constraint.
Proof. solve_decision. Defined.

(** The four properties expected to be inherited down the chain. *)
Definition inheritable : list WikidataProperty :=
  [ORIGINAL_NETWORK; COUNTRY_OF_ORIGIN;
   ORIGNAL_LANGUAGE_OF_FILM_OR_TV_SHOW; PRODUCTION_COMPANY].

(** A list with an inheritance check for exactly the four properties. *)
Definition checks_inheritance (cs : list Constraint) : Prop :=
  ∀ prop, inherits_property prop ∈ cs ↔ prop ∈ inheritable.

(** [w'] has the store and the query service of [w]; only the logs may
    differ. *)
Definition same_backing (w w' : World) : Prop :=
  items w' = items w ∧ endpoint w' = endpoint w.

(** A computation that leaves the store and the query service as they
    were and whose outcome depends on nothing else in the world. *)
Definition repeatable {A} (m : M A) : Prop :=
  ∀ w, same_backing w (m w).2 ∧
       ∀ w', same_backing w w' → (m w').1 = (m w).1.

(** Number of store reads in a log. *)
Definition is_get (ev : Event) : bool :=
  match ev with EvGet _ => true | _ => false end.

Definition gets (l : list Event) : nat := length (filter is_get l).

(** An outcome reached from [w] within a budget: at most [max_queries]
    queries, at most one element taken and at most one store read, none
    of the last two when the outcome is absent; the store and the query
    service are left as they were. *)
Definition within_cost {A} (max_queries : nat)
    (w : World) (outcome : Result (option A) * World) : Prop :=
  ∃ added : list Event,
    log outcome.2 = (log w ++ added)%list ∧
    (queries added ≤ max_queries)%nat ∧
    (yields added ≤ 1)%nat ∧ (gets added ≤ 1)%nat ∧
    (outcome.1 = Ok None → yields added = 0%nat ∧ gets added = 0%nat) ∧
    same_backing w outcome.2.

(** [self.parent.parent...], [n] times: absent as soon as a parent is. *)
Fixpoint ancestor `{Vocabulary} (n : nat) (self : BaseType) : M (option BaseType) :=
  match n with
  | O => ret (Some self)
  | S n' =>
      let* up := parent self in
      match up with
      | None => ret None
      | Some above => ancestor n' above
      end
  end.

(** How many parents the class of an instance has above it. *)
Definition rank (cls : Kind) : nat :=
  match cls with
  | KSeries => 0
  | KSeason => 1
  | KEpisode => 2
  end.

(** The exceptions that the guarded lookups leave possible. *)
Definition lookup_failure (e : Exn) : Prop :=
  e = IndexError ∨ e = ValueError ∨ ∃ title, e = NoPageError title.

(** The same item seen as an instance of [cls]. *)
Definition as_kind (cls : Kind) (self : BaseType) : BaseType :=
  {| kind := cls; itempage := itempage self; claims := claims self |}.

(** An outcome with its successor, if any, seen as an instance of [cls]. *)
Definition outcome_as_kind (cls : Kind)
    (outcome : Result (option BaseType) * World) : Result (option BaseType) * World :=
  match outcome with
  | (Ok (Some successor), w) => (Ok (Some (as_kind cls successor)), w)
  | other => other
  end.

(** A statement with only the first value of each of its qualifiers. *)
Definition first_qualifiers (c : Claim) : Claim :=
  {| getTarget := getTarget c; qualifiers := take 1 <$> qualifiers c |}.

(** An instance with only the first statement of each property, and only
    the first value of each qualifier of that statement. *)
Definition first_statements (self : BaseType) : BaseType :=
  {| kind := kind self;
     itempage := itempage self;
     claims := (λ l, first_qualifiers <$> take 1 l) <$> claims self |}.

(** ** A sample world

    The Wikidata identifiers of the properties, a one-condition query
    builder, and a few items used by the examples below. *)

Definition wikidata_pid (prop : WikidataProperty) : string :=
  match prop with
  | INSTANCE_OF => "P31"
  | TITLE => "P1476"
  | PART_OF_THE_SERIES => "P179"
  | SEASON => "P4908"
  | ORIGINAL_NETWORK => "P449"
  | COUNTRY_OF_ORIGIN => "P495"
  | ORIGNAL_LANGUAGE_OF_FILM_OR_TV_SHOW => "P364"
  | PRODUCTION_COMPANY => "P272"
  | PUBLICATION_DATE => "P577"
  | DIRECTOR => "P57"
  | FOLLOWED_BY => "P156"
  | FOLLOWS => "P155"
  | DURATION => "P2047"
  | IMDB_ID => "P345"
  | HAS_PART => "P527"
  | NUMBER_OF_EPISODES => "P1113"
  | SERIES_ORDINAL => "P1545"
  end.

Fixpoint sample_conditions (conds : list (string * string)) : string :=
  match conds with
  | [] => ""
  | (p, v) :: conds' =>
      " ?item wdt:" +:+ p +:+ " wd:" +:+ v +:+ " ." +:+ sample_conditions conds'
  end.

Definition sample_query (conds : list (string * string)) : string :=
  "SELECT ?item WHERE {" +:+ sample_conditions conds +:+ " }".

Definition wikidata : Vocabulary :=
  {| pid := wikidata_pid; generate_sparql_query := sample_query |}.

Definition page (title : string) : ItemPage := {| page_title := title |}.

(** A statement pointing at [title], with series ordinal [ordinal]. *)
Definition numbered (title ordinal : string) : Claim :=
  {| getTarget := page title;
     qualifiers := {[ "P1545" := [ {| qualifier_getTarget := ordinal |} ] ]} |}.

Definition plain (title : string) : Claim :=
  {| getTarget := page title; qualifiers := ∅ |}.

Definition entity (cls : Kind) (title : string) (cl : Claims) : BaseType :=
  {| kind := cls; itempage := page title; claims := cl |}.

Definition world (store : gmap string Claims) (answers : string → list ItemPage) : World :=
  {| items := store; endpoint := answers; log := [] |}.

(** ** Sample instances and worlds *)

Section Samples.
#[local] Existing Instance wikidata.

(** An episode that is number 7 of its series, and in a season whose
    ordinal reads [3a]. *)
Definition numbered_episode : BaseType :=
  entity KEpisode "Q10"
    {[ "P179" := [numbered "Q1" " 7"]; "P4908" := [numbered "Q2" "3a"] ]}.

(** Episode Q10 is followed by Q11; the endpoint would answer Q99 to any
    query. *)
Definition linked_episode : BaseType :=
  entity KEpisode "Q10" {[ "P156" := [plain "Q11"] ]}.

Definition misleading_world : World :=
  world {[ "Q11" := ∅ ]} (λ _, [page "Q99"]).

(** Season Q2 has no followed-by fact; the endpoint knows two items that
    follow it. *)
Definition unlinked_season : BaseType := entity KSeason "Q2" ∅.

Definition reverse_world : World :=
  world {[ "Q3" := ∅; "Q4" := ∅ ]}
    (λ q, if decide (q = "SELECT ?item WHERE { ?item wdt:P155 wd:Q2 . }")
          then [page "Q3"; page "Q4"] else []).

(** Episode Q10 is number 7 of series Q1 and number 3 of season Q2.  No
    item follows it and the series has no number 8, but the endpoint
    knows number 4 of the season, Q11. *)
Definition stranded_episode : BaseType :=
  entity KEpisode "Q10"
    {[ "P179" := [numbered "Q1" "7"]; "P4908" := [numbered "Q2" "3"] ]}.

Definition season_only_world : World :=
  world {[ "Q11" := ∅ ]}
    (λ q, if decide (q = Episode.season_query (Some "Q1") (Some "Q2") 3)
          then [page "Q11"] else []).

(** Episode Q10 is number 3 of season Q2 and names no series. *)
Definition seriesless_episode : BaseType :=
  entity KEpisode "Q10" {[ "P4908" := [numbered "Q2" "3"] ]}.

Definition seriesless_world : World :=
  world {[ "Q11" := ∅ ]}
    (λ q, if decide (q = Episode.season_query None (Some "Q2") 3)
          then [page "Q11"] else []).

(** Season Q2 is number 1 of series Q1; the endpoint knows two seasons
    numbered 2. *)
Definition first_season : BaseType :=
  entity KSeason "Q2" {[ "P179" := [numbered "Q1" "1"] ]}.

Definition duplicate_world : World :=
  world {[ "Q3" := ∅; "Q4" := ∅ ]}
    (λ q, if decide (q = Season.series_query (Some "Q1") 1)
          then [page "Q3"; page "Q4"] else []).

(** Season Q2 of series Q1, on a network; the series names its country. *)
Definition checked_season : BaseType :=
  entity KSeason "Q2" {[ "P179" := [plain "Q1"]; "P449" := [plain "Q50"] ]}.

Definition checked_world : World :=
  world {[ "Q1" := {[ "P495" := [plain "Q30"] ]} ]} (λ _, []).

(** Season Q2 names itself as its series. *)
Definition looping_season : BaseType :=
  entity KSeason "Q2" {[ "P179" := [plain "Q2"] ]}.

Definition looping_world : World :=
  world {[ "Q2" := {[ "P179" := [plain "Q2"] ]} ]} (λ _, []).

(** Episode Q10 of season Q2, with a second season statement and a
    second ordinal on the first. *)
Definition crowded_episode : BaseType :=
  entity KEpisode "Q10"
    {[ "P4908" :=
         [ {| getTarget := page "Q2";
              qualifiers :=
                {[ "P1545" := [ {| qualifier_getTarget := "3" |};
                                {| qualifier_getTarget := "30" |} ] ]} |};
           numbered "Q5" "9" ] ]}.

(** Episode Q10 is number 3 of season Q2; its ordinal in series Q1 reads
    [3a]. *)
Definition garbled_episode : BaseType :=
  entity KEpisode "Q10"
    {[ "P179" := [numbered "Q1" "3a"]; "P4908" := [numbered "Q2" "3"] ]}.

End Samples.

(** * Properties *)

(** ** Built-ins *)

Example int_plain : Py.int "12" = Ok 12%Z.
Proof. reflexivity. Qed.

Example int_blanks_sign : Py.int "  -7 " = Ok (-7)%Z.
Proof. reflexivity. Qed.

Example int_underscore : Py.int "1_000" = Ok 1000%Z.
Proof. reflexivity. Qed.

Example int_letters : Py.int "3a" = Raise ValueError.
Proof. reflexivity. Qed.

Example int_empty : Py.int "" = Raise ValueError.
Proof. reflexivity. Qed.

Example str_of_int_neg : str_of_int (-40) = "-40".
Proof. reflexivity. Qed.

(** ** Dictionaries *)

Lemma contains_Some {V} (d : gmap string V) (k : string) (v : V) :
  d !! k = Some v → contains d k = true.
Proof. intros Hk. unfold contains. apply bool_decide_eq_true. eauto. Qed.

Lemma contains_None {V} (d : gmap string V) (k : string) :
  d !! k = None → contains d k = false.
Proof.
  intros Hk. unfold contains. apply bool_decide_eq_false.
  rewrite Hk. apply is_Some_None.
Qed.

Lemma getitem_Some {V} (d : gmap string V) (k : string) (v : V) :
  d !! k = Some v → getitem d k = Ok v.
Proof. intros Hk. unfold getitem. by rewrite Hk. Qed.

Lemma getitem_None {V} (d : gmap string V) (k : string) :
  d !! k = None → getitem d k = Raise (KeyError k).
Proof. intros Hk. unfold getitem. by rewrite Hk. Qed.

(** Rewrites the dictionary reads of the goal with the lookups among the
    hypotheses. *)
Ltac read_dict :=
  match goal with
  | Hk : ?d !! ?k = Some ?v |- context [contains ?d ?k] =>
      rewrite (contains_Some d k v Hk)
  | Hk : ?d !! ?k = None |- context [contains ?d ?k] =>
      rewrite (contains_None d k Hk)
  | Hk : ?d !! ?k = Some ?v |- context [getitem ?d ?k] =>
      rewrite (getitem_Some d k v Hk)
  | Hk : ?d !! ?k = None |- context [getitem ?d ?k] =>
      rewrite (getitem_None d k Hk)
  end.

Ltac read_dicts := repeat (read_dict; cbn [negb rbind first]).

(** [int] raises nothing but [ValueError]. *)
Lemma int_raises (s : string) (e : Exn) : int s = Raise e → e = ValueError.
Proof.
  unfold int. destruct (strip _) as [|c l'].
  - intros [= <-]. reflexivity.
  - repeat case_match; intros [= <-] || intros [=]; reflexivity.
Qed.

(** ** Ordinals *)

Ltac ordinal_cases :=
  intros self; split;
  [ intros Hlink; read_dicts; reflexivity
  | intros c cs Hlink; split;
    [ intros Hq; read_dicts; reflexivity
    | intros q qs Hq; split;
      [ intros n Hn; read_dicts; rewrite Hn; reflexivity
      | intros e He; read_dicts; rewrite He;
        rewrite (int_raises _ _ He); split; reflexivity ] ] ].

(** C4. For an Episode and a Season, [ordinal_in_series] (for an Episode,
    also [ordinal_in_season]) is the integer value of the series-ordinal
    qualifier of the first part-of-the-series (resp. season) fact; it is
    absent when that fact or its qualifier is missing; and when the
    qualifier does not parse as an integer the property raises
    [ValueError], a malformed-data error, instead of being absent. *)
Theorem ordinal_reads_qualifier `{Vocabulary} :
  reads_series_ordinal PART_OF_THE_SERIES Episode.ordinal_in_series ∧
  reads_series_ordinal SEASON Episode.ordinal_in_season ∧
  reads_series_ordinal PART_OF_THE_SERIES Season.ordinal_in_series.
Proof.
  split; [|split].
  - unfold Episode.ordinal_in_series. ordinal_cases.
  - unfold Episode.ordinal_in_season. ordinal_cases.
  - unfold Season.ordinal_in_series. ordinal_cases.
Qed.

Section Ordinal_examples.
#[local] Existing Instance wikidata.

Lemma ordinal_reads_qualifier_witness :
  Episode.ordinal_in_series numbered_episode = Ok (Some 7%Z) ∧
  Episode.ordinal_in_season numbered_episode = Raise ValueError ∧
  Season.ordinal_in_series (entity KSeason "Q2" ∅) = Ok None.
Proof.
  destruct (ordinal_reads_qualifier (H := wikidata))
    as (Hseries & Hseason & Hof_season).
  split; [|split].
  - destruct (Hseries numbered_episode) as [_ Hfact].
    destruct (Hfact (numbered "Q1" " 7") [] eq_refl) as [_ Hqual].
    destruct (Hqual {| qualifier_getTarget := " 7" |} [] eq_refl) as [Hint _].
    apply Hint. reflexivity.
  - destruct (Hseason numbered_episode) as [_ Hfact].
    destruct (Hfact (numbered "Q2" "3a") [] eq_refl) as [_ Hqual].
    destruct (Hqual {| qualifier_getTarget := "3a" |} [] eq_refl) as [_ Hbad].
    apply (Hbad ValueError). reflexivity.
  - destruct (Hof_season (entity KSeason "Q2" ∅)) as [Hnone _].
    apply Hnone. reflexivity.
Defined.

End Ordinal_examples.

(** ** Parents *)

(** C3. The parent of a Series is always absent and nothing is raised.
    The parent of an Episode whose claims have no season fact, and of a
    Season whose claims have no part-of-the-series fact, is not computed:
    the lookup raises [KeyError], a malformed-data error, before the store
    is read. *)
Theorem parent_by_variant `{Vocabulary} (self : BaseType) (w : World) :
  (kind self = KSeries → parent self w = (Ok None, w)) ∧
  (kind self = KEpisode → claims self !! pid SEASON = None →
     parent self w = (Raise (KeyError (pid SEASON)), w) ∧
     classify (KeyError (pid SEASON)) = MalformedDataError) ∧
  (kind self = KSeason → claims self !! pid PART_OF_THE_SERIES = None →
     parent self w = (Raise (KeyError (pid PART_OF_THE_SERIES)), w) ∧
     classify (KeyError (pid PART_OF_THE_SERIES)) = MalformedDataError).
Proof.
  unfold parent. split; [|split].
  - intros ->. reflexivity.
  - intros -> Hfact. split; [|reflexivity].
    unfold Episode.parent, bind, lift. by read_dicts.
  - intros -> Hfact. split; [|reflexivity].
    unfold Season.parent, bind, lift. by read_dicts.
Qed.

Section Parent_examples.
#[local] Existing Instance wikidata.

Lemma parent_by_variant_witness :
  parent (entity KSeries "Q1" ∅) (world ∅ (λ _, [])) = (Ok None, world ∅ (λ _, [])) ∧
  parent (entity KEpisode "Q10" ∅) (world ∅ (λ _, []))
    = (Raise (KeyError "P4908"), world ∅ (λ _, [])) ∧
  parent (entity KSeason "Q2" ∅) (world ∅ (λ _, []))
    = (Raise (KeyError "P179"), world ∅ (λ _, [])).
Proof.
  split; [|split].
  - destruct (parent_by_variant (entity KSeries "Q1" ∅) (world ∅ (λ _, [])))
      as (Hseries & _ & _).
    apply Hseries. reflexivity.
  - destruct (parent_by_variant (entity KEpisode "Q10" ∅) (world ∅ (λ _, [])))
      as (_ & Hepisode & _).
    apply Hepisode; reflexivity.
  - destruct (parent_by_variant (entity KSeason "Q2" ∅) (world ∅ (λ _, [])))
      as (_ & _ & Hseason).
    apply Hseason; reflexivity.
Defined.

End Parent_examples.

(** ** Runs of the collaborators *)

Lemma logged_logged (w : World) (evs evs' : list Event) :
  logged (logged w evs) evs' = logged w (evs ++ evs').
Proof. unfold logged. cbn. by rewrite app_assoc. Qed.

Lemma emit_run (ev : Event) (w : World) : emit ev w = (Ok tt, logged w [ev]).
Proof. reflexivity. Qed.

Lemma bind_run {A B} (m : M A) (k : A → M B) (w : World) :
  bind m k w =
    match m w with
    | (Ok a, w') => k a w'
    | (Raise e, w') => (Raise e, w')
    end.
Proof. reflexivity. Qed.

(** [cls(itempage)] reads the store once; the item's claims become the
    claims of the instance. *)
Lemma new_run (cls : Kind) (p : ItemPage) (w : World) :
  BaseType.new cls p w =
    match items w !! page_title p with
    | Some content =>
        (Ok {| kind := cls; itempage := p; claims := content |},
         logged w [EvGet (page_title p); EvSite])
    | None =>
        (Raise (NoPageError (page_title p)), logged w [EvGet (page_title p)])
    end.
Proof.
  unfold BaseType.new, ItemPage_get, Site_data_repository, bind, ret.
  rewrite emit_run. cbn [items logged].
  destruct (items w !! page_title p); [|reflexivity].
  rewrite emit_run, logged_logged. reflexivity.
Qed.

(** One query, and the first element of its answers if there is one. *)
Lemma first_answer_run (query : string) (w : World) :
  (let* gen := WikidataSPARQLPageGenerator query in next_or_None gen) w =
    match endpoint w query with
    | [] => (Ok None, logged w [EvQuery query])
    | p :: _ => (Ok (Some p), logged w [EvQuery query; EvYield p])
    end.
Proof.
  unfold WikidataSPARQLPageGenerator, next_or_None, bind, ret.
  rewrite emit_run. cbn [endpoint logged].
  destruct (endpoint w query); [reflexivity|].
  rewrite emit_run, logged_logged. reflexivity.
Qed.

(** ** The explicit forward link *)

(** C1. For an Episode or a Season whose claims hold a followed-by fact,
    [next] is the instance of the same class built on the target of the
    first such fact: it returns what [cls(target)] returns, which is the
    item of that target whenever the store has it.  The call logs the
    store read of the constructor and no query: nothing is asked of the
    SPARQL endpoint and no generator element is taken. *)
Theorem next_follows_forward_link `{Vocabulary}
    (self : BaseType) (w : World) (c : Claim) (cs : list Claim) :
  kind self ≠ KSeries →
  claims self !! pid FOLLOWED_BY = Some (c :: cs) →
  next self w =
    (let* successor := BaseType.new (kind self) (getTarget c) in
     ret (Some successor)) w ∧
  (∀ content, items w !! page_title (getTarget c) = Some content →
     (next self w).1 =
       Ok (Some {| kind := kind self; itempage := getTarget c; claims := content |})) ∧
  ∃ added : list Event,
    log (next self w).2 = (log w ++ added)%list ∧
    queries added = 0%nat ∧ yields added = 0%nat.
Proof.
  intros Hkind Hfact.
  assert (Hnext : next self w =
    (let* successor := BaseType.new (kind self) (getTarget c) in
     ret (Some successor)) w).
  { unfold next. destruct (kind self) eqn:Hk; [done| |].
    - unfold Season.next. read_dicts. unfold bind at 1 3, lift. by read_dicts.
    - unfold Episode.next. read_dicts. unfold bind at 1 3, lift. by read_dicts. }
  split; [exact Hnext|]. rewrite Hnext. unfold bind, ret. rewrite new_run.
  split.
  - intros content ->. reflexivity.
  - destruct (items w !! _); eexists; (split; [reflexivity|done]).
Qed.

Section Forward_link_examples.
#[local] Existing Instance wikidata.

Lemma next_follows_forward_link_witness :
  (next linked_episode misleading_world).1 = Ok (Some (entity KEpisode "Q11" ∅)).
Proof.
  destruct (next_follows_forward_link linked_episode misleading_world
              (plain "Q11") [] ltac:(discriminate) eq_refl)
    as (_ & Hitem & _).
  apply (Hitem ∅). reflexivity.
Defined.

End Forward_link_examples.

(** ** The reverse lookup *)

(** C5. For an Episode or a Season without a followed-by fact, when the
    endpoint answers the reverse-lookup query with at least one item,
    [next] is the instance of the same class built on the first answer:
    after the query and the one element taken, it returns what
    [cls(first)] returns, which is the item of that answer whenever the
    store has it. *)
Theorem next_takes_reverse_link `{Vocabulary}
    (self : BaseType) (w : World) (first_answer : ItemPage) (others : list ItemPage) :
  kind self ≠ KSeries →
  claims self !! pid FOLLOWED_BY = None →
  endpoint w (follows_query self) = first_answer :: others →
  next self w =
    (let* successor := BaseType.new (kind self) first_answer in
     ret (Some successor))
      (logged w [EvQuery (follows_query self); EvYield first_answer]) ∧
  (∀ content, items w !! page_title first_answer = Some content →
     (next self w).1 =
       Ok (Some {| kind := kind self; itempage := first_answer; claims := content |})).
Proof.
  intros Hkind Hfact Hanswer.
  assert (Hnext : next self w =
    (let* successor := BaseType.new (kind self) first_answer in
     ret (Some successor))
      (logged w [EvQuery (follows_query self); EvYield first_answer])).
  { pose proof (first_answer_run (follows_query self) w) as Hrun.
    rewrite Hanswer in Hrun. unfold bind in Hrun.
    unfold next. destruct (kind self) eqn:Hk; [done| |].
    - unfold Season.next. read_dicts. fold (follows_query self).
      unfold bind at 1 2.
      destruct (WikidataSPARQLPageGenerator _ w) as [[gen|e] w'];
        [|discriminate]. by rewrite Hrun.
    - unfold Episode.next. read_dicts. fold (follows_query self).
      unfold bind at 1 2.
      destruct (WikidataSPARQLPageGenerator _ w) as [[gen|e] w'];
        [|discriminate]. by rewrite Hrun. }
  split; [exact Hnext|]. intros content Hitem.
  rewrite Hnext. unfold bind, ret. rewrite new_run. cbn [items logged].
  by rewrite Hitem.
Qed.

Section Reverse_link_examples.
#[local] Existing Instance wikidata.

Lemma next_takes_reverse_link_witness :
  (next unlinked_season reverse_world).1 = Ok (Some (entity KSeason "Q3" ∅)).
Proof.
  destruct (next_takes_reverse_link unlinked_season reverse_world
              (page "Q3") [page "Q4"] ltac:(discriminate) eq_refl eq_refl)
    as [_ Hitem].
  apply (Hitem ∅). reflexivity.
Defined.

End Reverse_link_examples.

(** ** The query strategies *)

Lemma take_first_run (cls : Kind) (query : string) (w : World) :
  take_first cls query w =
    match endpoint w query with
    | [] => (Ok None, logged w [EvQuery query])
    | p :: _ =>
        match items w !! page_title p with
        | Some content =>
            (Ok (Some {| kind := cls; itempage := p; claims := content |}),
             logged w [EvQuery query; EvYield p; EvGet (page_title p); EvSite])
        | None =>
            (Raise (NoPageError (page_title p)),
             logged w [EvQuery query; EvYield p; EvGet (page_title p)])
        end
    end.
Proof.
  unfold take_first, WikidataSPARQLPageGenerator, bind.
  rewrite emit_run. cbn [endpoint logged].
  destruct (endpoint w query) as [|p others]; cbn [next_or_None ret].
  - reflexivity.
  - unfold bind. rewrite emit_run, logged_logged. cbn [ret app].
    rewrite new_run. cbn [items logged].
    destruct (items w !! page_title p); by rewrite ?logged_logged.
Qed.

Section Strategy_runs.
Context `{Vocabulary}.

(** A resolvable ordinal in the series comes with a readable series. *)
Lemma Episode_series_of_ordinal (self : BaseType) (n : Z) :
  Episode.ordinal_in_series self = Ok (Some n) →
  ∃ series, Episode.part_of_the_series self = Ok (Some series).
Proof.
  unfold Episode.ordinal_in_series, Episode.part_of_the_series.
  destruct (contains (claims self) (pid PART_OF_THE_SERIES)); [|discriminate].
  cbn [negb]. destruct (getitem _ _) as [[|c cs]|e]; cbn; try discriminate.
  eauto.
Qed.

Lemma Season_series_of_ordinal (self : BaseType) (n : Z) :
  Season.ordinal_in_series self = Ok (Some n) →
  ∃ series, Season.part_of_the_series self = Ok (Some series).
Proof.
  unfold Season.ordinal_in_series, Season.part_of_the_series.
  destruct (contains (claims self) (pid PART_OF_THE_SERIES)); [|discriminate].
  cbn [negb]. destruct (getitem _ _) as [[|c cs]|e]; cbn; try discriminate.
  eauto.
Qed.

Lemma Episode_next_in_series_run (self : BaseType) (w : World) :
  Episode.next_in_series self w =
    match Episode.ordinal_in_series self with
    | Raise e => (Raise e, w)
    | Ok None => (Ok None, w)
    | Ok (Some n) =>
        match Episode.part_of_the_series self with
        | Raise e => (Raise e, w)
        | Ok series => take_first KEpisode (Episode.series_query series n) w
        end
    end.
Proof.
  unfold Episode.next_in_series. unfold bind at 1, lift at 1.
  destruct (Episode.ordinal_in_series self) as [[n|]|e]; reflexivity.
Qed.

Lemma Episode_next_in_season_run (self : BaseType) (w : World) :
  Episode.next_in_season self w =
    match Episode.ordinal_in_season self with
    | Raise e => (Raise e, w)
    | Ok None => (Ok None, w)
    | Ok (Some n) =>
        match Episode.part_of_the_series self with
        | Raise e => (Raise e, w)
        | Ok series =>
            match Episode.season self with
            | Raise e => (Raise e, w)
            | Ok season =>
                take_first KEpisode (Episode.season_query series season n) w
            end
        end
    end.
Proof.
  unfold Episode.next_in_season. unfold bind at 1, lift at 1.
  destruct (Episode.ordinal_in_season self) as [[n|]|e]; reflexivity.
Qed.

Lemma Season_next_in_series_run (self : BaseType) (w : World) :
  Season.next_in_series self w =
    match Season.ordinal_in_series self with
    | Raise e => (Raise e, w)
    | Ok None => (Ok None, w)
    | Ok (Some n) =>
        match Season.part_of_the_series self with
        | Raise e => (Raise e, w)
        | Ok series => take_first KSeason (Season.series_query series n) w
        end
    end.
Proof.
  unfold Season.next_in_series. unfold bind at 1, lift at 1.
  destruct (Season.ordinal_in_series self) as [[n|]|e]; reflexivity.
Qed.

(** [next] without a followed-by fact: the reverse lookup, then the
    ordinal strategies in the world the lookup left. *)
Lemma Episode_next_run (self : BaseType) (w : World) :
  claims self !! pid FOLLOWED_BY = None →
  Episode.next self w =
    match take_first KEpisode (follows_query self) w with
    | (Ok None, w1) =>
        match Episode.ordinal_in_series self with
        | Raise e => (Raise e, w1)
        | Ok (Some _) => Episode.next_in_series self w1
        | Ok None =>
            match Episode.ordinal_in_season self with
            | Raise e => (Raise e, w1)
            | Ok (Some _) => Episode.next_in_season self w1
            | Ok None => (Ok None, w1)
            end
        end
    | outcome => outcome
    end.
Proof.
  intros Hfact. rewrite take_first_run. unfold Episode.next. read_dicts.
  fold (follows_query self). set (query := follows_query self).
  rewrite bind_run. unfold WikidataSPARQLPageGenerator at 1.
  rewrite bind_run, emit_run. cbn [endpoint logged].
  destruct (endpoint w query) as [|p others].
  - rewrite bind_run. cbn [next_or_None ret].
    rewrite bind_run. unfold lift at 1.
    destruct (Episode.ordinal_in_series self) as [[n|]|e]; try reflexivity.
    rewrite bind_run. unfold lift at 1.
    destruct (Episode.ordinal_in_season self) as [[n|]|e]; reflexivity.
  - rewrite bind_run. cbn [next_or_None].
    rewrite bind_run, emit_run, logged_logged. cbn [ret app].
    rewrite bind_run, new_run. cbn [items logged].
    destruct (items w !! page_title p); by rewrite logged_logged.
Qed.

Lemma Season_next_run (self : BaseType) (w : World) :
  claims self !! pid FOLLOWED_BY = None →
  Season.next self w =
    match take_first KSeason (follows_query self) w with
    | (Ok None, w1) =>
        match Season.ordinal_in_series self with
        | Raise e => (Raise e, w1)
        | Ok (Some _) => Season.next_in_series self w1
        | Ok None => (Ok None, w1)
        end
    | outcome => outcome
    end.
Proof.
  intros Hfact. rewrite take_first_run. unfold Season.next. read_dicts.
  fold (follows_query self). set (query := follows_query self).
  rewrite bind_run. unfold WikidataSPARQLPageGenerator at 1.
  rewrite bind_run, emit_run. cbn [endpoint logged].
  destruct (endpoint w query) as [|p others].
  - rewrite bind_run. cbn [next_or_None ret].
    rewrite bind_run. unfold lift at 1.
    destruct (Season.ordinal_in_series self) as [[n|]|e]; reflexivity.
  - rewrite bind_run. cbn [next_or_None].
    rewrite bind_run, emit_run, logged_logged. cbn [ret app].
    rewrite bind_run, new_run. cbn [items logged].
    destruct (items w !! page_title p); by rewrite logged_logged.
Qed.

End Strategy_runs.

Section More_runs.
Context `{Vocabulary}.

(** [next] with a followed-by fact. *)
Lemma Episode_next_forward_run (self : BaseType) (w : World) (l : list Claim) :
  claims self !! pid FOLLOWED_BY = Some l →
  Episode.next self w =
    match l with
    | [] => (Raise IndexError, w)
    | c :: _ =>
        (let* successor := BaseType.new KEpisode (getTarget c) in
         ret (Some successor)) w
    end.
Proof.
  intros Hfact. unfold Episode.next. read_dicts.
  rewrite bind_run. unfold lift. read_dicts. by destruct l.
Qed.

Lemma Season_next_forward_run (self : BaseType) (w : World) (l : list Claim) :
  claims self !! pid FOLLOWED_BY = Some l →
  Season.next self w =
    match l with
    | [] => (Raise IndexError, w)
    | c :: _ =>
        (let* successor := BaseType.new KSeason (getTarget c) in
         ret (Some successor)) w
    end.
Proof.
  intros Hfact. unfold Season.next. read_dicts.
  rewrite bind_run. unfold lift. read_dicts. by destruct l.
Qed.

Lemma new_kind (cls : Kind) (p : ItemPage) (w : World) (result : BaseType) :
  (BaseType.new cls p w).1 = Ok result → kind result = cls.
Proof.
  rewrite new_run. destruct (items w !! page_title p); cbn; [|discriminate].
  by intros [= <-].
Qed.

Lemma wrapped_kind (cls : Kind) (p : ItemPage) (w : World) (result : BaseType) :
  ((let* successor := BaseType.new cls p in ret (Some successor)) w).1
    = Ok (Some result) →
  kind result = cls.
Proof.
  rewrite bind_run. pose proof (new_kind cls p w) as Hnew.
  destruct (BaseType.new cls p w) as [[successor|e] w1]; cbn; [|discriminate].
  intros [= <-]. by apply Hnew.
Qed.

Lemma take_first_kind (cls : Kind) (query : string) (w : World) (result : BaseType) :
  (take_first cls query w).1 = Ok (Some result) → kind result = cls.
Proof.
  rewrite take_first_run. destruct (endpoint w query) as [|p others]; cbn; [discriminate|].
  destruct (items w !! page_title p); cbn; [|discriminate].
  by intros [= <-].
Qed.

Lemma Episode_next_in_series_kind (self : BaseType) (w : World) (result : BaseType) :
  (Episode.next_in_series self w).1 = Ok (Some result) → kind result = KEpisode.
Proof.
  rewrite Episode_next_in_series_run.
  destruct (Episode.ordinal_in_series self) as [[n|]|e]; cbn; try discriminate.
  destruct (Episode.part_of_the_series self) as [series|e]; cbn; [|discriminate].
  apply take_first_kind.
Qed.

Lemma Episode_next_in_season_kind (self : BaseType) (w : World) (result : BaseType) :
  (Episode.next_in_season self w).1 = Ok (Some result) → kind result = KEpisode.
Proof.
  rewrite Episode_next_in_season_run.
  destruct (Episode.ordinal_in_season self) as [[n|]|e]; cbn; try discriminate.
  destruct (Episode.part_of_the_series self) as [series|e]; cbn; [|discriminate].
  destruct (Episode.season self) as [season|e]; cbn; [|discriminate].
  apply take_first_kind.
Qed.

Lemma Season_next_in_series_kind (self : BaseType) (w : World) (result : BaseType) :
  (Season.next_in_series self w).1 = Ok (Some result) → kind result = KSeason.
Proof.
  rewrite Season_next_in_series_run.
  destruct (Season.ordinal_in_series self) as [[n|]|e]; cbn; try discriminate.
  destruct (Season.part_of_the_series self) as [series|e]; cbn; [|discriminate].
  apply take_first_kind.
Qed.

Lemma Episode_next_kind (self : BaseType) (w : World) (result : BaseType) :
  (Episode.next self w).1 = Ok (Some result) → kind result = KEpisode.
Proof.
  destruct (claims self !! pid FOLLOWED_BY) as [l|] eqn:Hfact.
  - rewrite (Episode_next_forward_run self w l Hfact).
    destruct l as [|c cs]; [discriminate|]. apply wrapped_kind.
  - rewrite (Episode_next_run self w Hfact).
    pose proof (take_first_kind KEpisode (follows_query self) w) as Hfirst.
    destruct (take_first _ _ w) as [[[found|]|e] w1]; cbn [fst] in *; [auto| |discriminate].
    destruct (Episode.ordinal_in_series self) as [[n|]|e];
      [apply Episode_next_in_series_kind| |discriminate].
    destruct (Episode.ordinal_in_season self) as [[n|]|e];
      [apply Episode_next_in_season_kind|discriminate..].
Qed.

Lemma Season_next_kind (self : BaseType) (w : World) (result : BaseType) :
  (Season.next self w).1 = Ok (Some result) → kind result = KSeason.
Proof.
  destruct (claims self !! pid FOLLOWED_BY) as [l|] eqn:Hfact.
  - rewrite (Season_next_forward_run self w l Hfact).
    destruct l as [|c cs]; [discriminate|]. apply wrapped_kind.
  - rewrite (Season_next_run self w Hfact).
    pose proof (take_first_kind KSeason (follows_query self) w) as Hfirst.
    destruct (take_first _ _ w) as [[[found|]|e] w1]; cbn [fst] in *; [auto| |discriminate].
    destruct (Season.ordinal_in_series self) as [[n|]|e];
      [apply Season_next_in_series_kind|discriminate..].
Qed.

Lemma Episode_parent_kind (self : BaseType) (w : World) (result : BaseType) :
  (Episode.parent self w).1 = Ok (Some result) → kind result = KSeason.
Proof.
  unfold Episode.parent. rewrite bind_run. unfold lift.
  destruct (let? l := _ in _) as [season_itempage|e]; [|discriminate].
  apply wrapped_kind.
Qed.

Lemma Season_parent_kind (self : BaseType) (w : World) (result : BaseType) :
  (Season.parent self w).1 = Ok (Some result) → kind result = KSeries.
Proof.
  unfold Season.parent. rewrite bind_run. unfold lift.
  destruct (let? l := _ in _) as [series_itempage|e]; [|discriminate].
  apply wrapped_kind.
Qed.

End More_runs.

(** ** Kinds *)

(** C9. Whatever the store and the endpoint hold, a successor found for
    an Episode by [next], [next_in_series] or [next_in_season] is an
    Episode and its parent is a Season; a successor found for a Season by
    [next] or [next_in_series] is a Season and its parent is a Series. *)
Theorem kind_fixed_by_receiver `{Vocabulary}
    (self : BaseType) (w : World) (result : BaseType) :
  ((Episode.next self w).1 = Ok (Some result) ∨
   (Episode.next_in_series self w).1 = Ok (Some result) ∨
   (Episode.next_in_season self w).1 = Ok (Some result) →
   kind result = KEpisode) ∧
  ((Episode.parent self w).1 = Ok (Some result) → kind result = KSeason) ∧
  ((Season.next self w).1 = Ok (Some result) ∨
   (Season.next_in_series self w).1 = Ok (Some result) →
   kind result = KSeason) ∧
  ((Season.parent self w).1 = Ok (Some result) → kind result = KSeries).
Proof.
  repeat split.
  - intros [Hnext|[Hseries|Hseason]];
      eauto using Episode_next_kind, Episode_next_in_series_kind,
        Episode_next_in_season_kind.
  - apply Episode_parent_kind.
  - intros [Hnext|Hseries];
      eauto using Season_next_kind, Season_next_in_series_kind.
  - apply Season_parent_kind.
Qed.

Section Kind_examples.
#[local] Existing Instance wikidata.

(** The successor that the reverse lookup finds for season Q2 is wrapped
    as a Season, though the store says nothing of what Q3 is. *)
Lemma kind_fixed_by_receiver_witness :
  (Season.next unlinked_season reverse_world).1 = Ok (Some (entity KSeason "Q3" ∅)) ∧
  kind (entity KSeason "Q3" ∅) = KSeason.
Proof.
  split; [reflexivity|].
  destruct (kind_fixed_by_receiver unlinked_season reverse_world
              (entity KSeason "Q3" ∅)) as (_ & _ & Hseason & _).
  apply Hseason. left. reflexivity.
Defined.

End Kind_examples.

(** ** The order of the strategies *)

Section Order_runs.
Context `{Vocabulary}.

Lemma Episode_next_reverse_run (self : BaseType) (w : World)
    (p : ItemPage) (others : list ItemPage) :
  claims self !! pid FOLLOWED_BY = None →
  endpoint w (follows_query self) = p :: others →
  Episode.next self w =
    (let* successor := BaseType.new KEpisode p in ret (Some successor))
      (logged w [EvQuery (follows_query self); EvYield p]).
Proof.
  intros Hfact Hanswer.
  rewrite (Episode_next_run self w Hfact), take_first_run, Hanswer.
  rewrite bind_run, new_run. cbn [items logged].
  destruct (items w !! page_title p); by rewrite logged_logged.
Qed.

Lemma Season_next_reverse_run (self : BaseType) (w : World)
    (p : ItemPage) (others : list ItemPage) :
  claims self !! pid FOLLOWED_BY = None →
  endpoint w (follows_query self) = p :: others →
  Season.next self w =
    (let* successor := BaseType.new KSeason p in ret (Some successor))
      (logged w [EvQuery (follows_query self); EvYield p]).
Proof.
  intros Hfact Hanswer.
  rewrite (Season_next_run self w Hfact), take_first_run, Hanswer.
  rewrite bind_run, new_run. cbn [items logged].
  destruct (items w !! page_title p); by rewrite logged_logged.
Qed.

End Order_runs.

Section Priority_examples.
#[local] Existing Instance wikidata.

(** The episode has no forward link, the reverse lookup and the series
    strategy find nothing, the season ordinal is resolvable and
    [next_in_season] finds Q11; yet [next] answers [None] after two
    queries. *)
Example next_of_stranded_episode :
  claims stranded_episode !! pid FOLLOWED_BY = None ∧
  endpoint season_only_world (follows_query stranded_episode) = [] ∧
  Episode.ordinal_in_series stranded_episode = Ok (Some 7%Z) ∧
  (Episode.next_in_series stranded_episode season_only_world).1 = Ok None ∧
  Episode.ordinal_in_season stranded_episode = Ok (Some 3%Z) ∧
  (Episode.next_in_season stranded_episode season_only_world).1
    = Ok (Some (entity KEpisode "Q11" ∅)) ∧
  (next stranded_episode season_only_world).1 = Ok None ∧
  queries (log (next stranded_episode season_only_world).2) = 2%nat.
Proof. vm_compute. repeat split. Qed.

(** The fall-through reading fails on the code: [next] does not go on to
    the season strategy. *)
Lemma next_skips_season_strategy :
  ¬ falls_through_to_season stranded_episode season_only_world.
Proof.
  intros Hfalls.
  pose proof (Hfalls eq_refl eq_refl 7%Z 3%Z _ eq_refl eq_refl eq_refl) as Hnext.
  apply (f_equal fst) in Hnext. vm_compute in Hnext. discriminate.
Qed.

End Priority_examples.

(** C2, amended. [next] of an Episode or a Season goes through its
    strategies in this order.  With a followed-by fact it is the wrapped
    target of the first such fact.  Without one, it asks the reverse
    lookup and is the wrapped first answer if there is one.  After an
    empty reverse lookup it is the outcome of one ordinal strategy,
    selected by the ordinals that are resolvable: [next_in_series] when
    the ordinal in the series is, whatever that strategy finds, an item
    or nothing; for an Episode, [next_in_season] when there is no ordinal
    in the series and the ordinal in the season is resolvable; and absent,
    which is not an error, when no ordinal is resolvable. *)
Theorem next_strategy_order `{Vocabulary} (self : BaseType) (w : World) :
  kind self ≠ KSeries →
  let query := follows_query self in
  let wrapped p :=
    (let* successor := BaseType.new (kind self) p in ret (Some successor)) in
  (∀ c cs, claims self !! pid FOLLOWED_BY = Some (c :: cs) →
           next self w = wrapped (getTarget c) w) ∧
  (claims self !! pid FOLLOWED_BY = None →
     (∀ p others, endpoint w query = p :: others →
        next self w = wrapped p (logged w [EvQuery query; EvYield p])) ∧
     (endpoint w query = [] →
        (∀ n, ordinal_in_series self = Ok (Some n) →
           next self w = next_in_series self (logged w [EvQuery query])) ∧
        (ordinal_in_series self = Ok None →
           (kind self = KSeason →
              next self w = (Ok None, logged w [EvQuery query])) ∧
           (kind self = KEpisode →
              (∀ m, Episode.ordinal_in_season self = Ok (Some m) →
                 next self w =
                   Episode.next_in_season self (logged w [EvQuery query])) ∧
              (Episode.ordinal_in_season self = Ok None →
                 next self w = (Ok None, logged w [EvQuery query])))))).
Proof.
  intros Hkind query wrapped. subst wrapped.
  unfold next, ordinal_in_series, next_in_series.
  destruct (kind self); [done| |].
  - split; [|intros Hfact; split].
    + intros c cs Hfact. by rewrite (Season_next_forward_run self w _ Hfact).
    + intros p others Hanswer. by eapply Season_next_reverse_run.
    + intros Hanswer.
      rewrite (Season_next_run self w Hfact), take_first_run.
      fold query. rewrite Hanswer. split.
      * by intros n ->.
      * intros ->. split; [done|discriminate].
  - split; [|intros Hfact; split].
    + intros c cs Hfact. by rewrite (Episode_next_forward_run self w _ Hfact).
    + intros p others Hanswer. by eapply Episode_next_reverse_run.
    + intros Hanswer.
      rewrite (Episode_next_run self w Hfact), take_first_run.
      fold query. rewrite Hanswer. split.
      * by intros n ->.
      * intros ->. split; [discriminate|]. intros _. split.
        -- by intros m ->.
        -- by intros ->.
Qed.

Section Order_examples.
#[local] Existing Instance wikidata.

Lemma next_strategy_order_witness :
  next stranded_episode season_only_world =
    Episode.next_in_series stranded_episode
      (logged season_only_world [EvQuery (follows_query stranded_episode)]).
Proof.
  pose proof (next_strategy_order (H := wikidata)
                stranded_episode season_only_world ltac:(discriminate))
    as Horder.
  cbv zeta in Horder. destruct Horder as [_ Hlookup].
  destruct (Hlookup eq_refl) as [_ Hordinal].
  destruct (Hordinal eq_refl) as [Hseries _].
  apply (Hseries 7%Z). reflexivity.
Defined.

End Order_examples.

(** ** The season strategy without a series *)

(** C10. For an Episode whose first season fact carries an ordinal that
    parses, and whose claims have no part-of-the-series fact,
    [next_in_season] neither returns early nor raises on the missing
    series: it is the one-query strategy run on the text in which the
    series is written [None].  So the log gains exactly one query, that
    text; the outcome is absent when the endpoint has no answer and the
    wrapped first answer when the store has it; and nothing can be raised
    but the store's [NoPageError] for that first answer. *)
Theorem next_in_season_without_series `{Vocabulary}
    (self : BaseType) (w : World)
    (c : Claim) (cs : list Claim) (q : Qualifier) (qs : list Qualifier) (n : Z) :
  claims self !! pid SEASON = Some (c :: cs) →
  qualifiers c !! pid SERIES_ORDINAL = Some (q :: qs) →
  int (qualifier_getTarget q) = Ok n →
  claims self !! pid PART_OF_THE_SERIES = None →
  let query := Episode.season_query None (Some (page_title (getTarget c))) n in
  (∃ before after, query = before +:+ " wd:None." +:+ after) ∧
  Episode.next_in_season self w = take_first KEpisode query w ∧
  (∃ added : list Event,
     log (Episode.next_in_season self w).2 = (log w ++ EvQuery query :: added)%list ∧
     queries added = 0%nat) ∧
  (endpoint w query = [] → (Episode.next_in_season self w).1 = Ok None) ∧
  (∀ p others content,
     endpoint w query = p :: others →
     items w !! page_title p = Some content →
     (Episode.next_in_season self w).1 =
       Ok (Some {| kind := KEpisode; itempage := p; claims := content |})) ∧
  (∀ e, (Episode.next_in_season self w).1 = Raise e →
     ∃ p others, endpoint w query = p :: others ∧
                 items w !! page_title p = None ∧
                 e = NoPageError (page_title p)).
Proof.
  intros Hseason Hqual Hint Hseries query.
  assert (Hrun : Episode.next_in_season self w = take_first KEpisode query w).
  { rewrite Episode_next_in_season_run.
    unfold Episode.ordinal_in_season, Episode.part_of_the_series, Episode.season.
    read_dicts. rewrite Hint. by read_dicts. }
  split.
  { exists ("SELECT ?item WHERE {" +:+ newline +:+
            "            ?item wdt:" +:+ pid PART_OF_THE_SERIES).
    eexists. unfold query, Episode.season_query, str_of_optional.
    reflexivity. }
  split; [exact Hrun|]. rewrite Hrun, take_first_run.
  destruct (endpoint w query) as [|p others] eqn:Hanswer.
  - repeat split; try done. by exists [].
  - destruct (items w !! page_title p) as [content|] eqn:Hitem; cbn [fst snd logged log].
    + repeat split; try done.
      * eexists. split; [reflexivity|done].
      * intros p' others' content' [= <- <-] Hitem'. congruence.
    + repeat split; try done.
      * eexists. split; [reflexivity|done].
      * intros p' others' content' [= <- <-] Hitem'. congruence.
      * intros e [= <-]. eauto.
Qed.

Section Season_strategy_examples.
#[local] Existing Instance wikidata.

Lemma next_in_season_without_series_witness :
  (Episode.next_in_season seriesless_episode seriesless_world).1
    = Ok (Some (entity KEpisode "Q11" ∅)).
Proof.
  destruct (next_in_season_without_series (H := wikidata)
              seriesless_episode seriesless_world
              (numbered "Q2" "3") [] {| qualifier_getTarget := "3" |} [] 3%Z
              eq_refl eq_refl eq_refl eq_refl)
    as (_ & _ & _ & _ & Hfound & _).
  apply (Hfound (page "Q11") [] ∅); reflexivity.
Defined.

(** The same episode through [next]: no forward link, an empty reverse
    lookup, no ordinal in the series, and the season strategy finds
    Q11. *)
Example next_of_seriesless_episode :
  (next seriesless_episode seriesless_world).1
    = Ok (Some (entity KEpisode "Q11" ∅)) ∧
  queries (log (next seriesless_episode seriesless_world).2) = 2%nat ∧
  yields (log (next seriesless_episode seriesless_world).2) = 1%nat.
Proof. vm_compute. repeat split. Qed.

End Season_strategy_examples.

(** ** One query, one element *)

Lemma one_query_at_most {A} (w : World) (outcome : Result A * World) :
  one_query w outcome → at_most_one_query w outcome.
Proof.
  intros (query & added & Hlog & Hq & Hy). exists (EvQuery query :: added).
  split; [exact Hlog|]. split.
  - change (S (queries added) ≤ 1)%nat. lia.
  - exact Hy.
Qed.

Lemma silent_at_most {A} (r : Result A) (w : World) :
  at_most_one_query w (r, w).
Proof.
  exists []. cbn. rewrite app_nil_r. split; [reflexivity|].
  split; repeat constructor.
Qed.

Lemma take_first_one_query (cls : Kind) (query : string) (w : World) :
  one_query w (take_first cls query w).
Proof.
  unfold one_query. rewrite take_first_run. exists query.
  destruct (endpoint w query) as [|p others].
  - exists []. cbn. split; [reflexivity|]. split; repeat constructor.
  - destruct (items w !! page_title p); eexists; cbn;
      (split; [reflexivity|split; [reflexivity|repeat constructor]]).
Qed.

Lemma new_truncated (cls : Kind) (p : ItemPage) (w : World) :
  BaseType.new cls p (truncated w) = prod_map id truncated (BaseType.new cls p w).
Proof.
  rewrite !new_run. cbn [items truncated].
  by destruct (items w !! page_title p).
Qed.

Lemma take_first_truncated (cls : Kind) (query : string) :
  first_answer_only (take_first cls query).
Proof.
  intros w. rewrite !take_first_run. cbn [items endpoint truncated].
  destruct (endpoint w query) as [|p others]; [reflexivity|]. cbn [take].
  by destruct (items w !! page_title p).
Qed.

Section Strategy_logs.
Context `{Vocabulary}.

Lemma Episode_next_in_series_at_most (self : BaseType) (w : World) :
  at_most_one_query w (Episode.next_in_series self w).
Proof.
  rewrite Episode_next_in_series_run.
  destruct (Episode.ordinal_in_series self) as [[n|]|e];
    try apply silent_at_most.
  destruct (Episode.part_of_the_series self) as [series|e];
    try apply silent_at_most.
  apply one_query_at_most, take_first_one_query.
Qed.

Lemma Episode_next_in_season_at_most (self : BaseType) (w : World) :
  at_most_one_query w (Episode.next_in_season self w).
Proof.
  rewrite Episode_next_in_season_run.
  destruct (Episode.ordinal_in_season self) as [[n|]|e];
    try apply silent_at_most.
  destruct (Episode.part_of_the_series self) as [series|e];
    try apply silent_at_most.
  destruct (Episode.season self) as [season|e];
    try apply silent_at_most.
  apply one_query_at_most, take_first_one_query.
Qed.

Lemma Season_next_in_series_at_most (self : BaseType) (w : World) :
  at_most_one_query w (Season.next_in_series self w).
Proof.
  rewrite Season_next_in_series_run.
  destruct (Season.ordinal_in_series self) as [[n|]|e];
    try apply silent_at_most.
  destruct (Season.part_of_the_series self) as [series|e];
    try apply silent_at_most.
  apply one_query_at_most, take_first_one_query.
Qed.

Lemma Episode_next_in_series_truncated (self : BaseType) :
  first_answer_only (Episode.next_in_series self).
Proof.
  intros w. rewrite !Episode_next_in_series_run.
  destruct (Episode.ordinal_in_series self) as [[n|]|e]; try reflexivity.
  destruct (Episode.part_of_the_series self) as [series|e]; try reflexivity.
  apply take_first_truncated.
Qed.

Lemma Episode_next_in_season_truncated (self : BaseType) :
  first_answer_only (Episode.next_in_season self).
Proof.
  intros w. rewrite !Episode_next_in_season_run.
  destruct (Episode.ordinal_in_season self) as [[n|]|e]; try reflexivity.
  destruct (Episode.part_of_the_series self) as [series|e]; try reflexivity.
  destruct (Episode.season self) as [season|e]; try reflexivity.
  apply take_first_truncated.
Qed.

Lemma Season_next_in_series_truncated (self : BaseType) :
  first_answer_only (Season.next_in_series self).
Proof.
  intros w. rewrite !Season_next_in_series_run.
  destruct (Season.ordinal_in_series self) as [[n|]|e]; try reflexivity.
  destruct (Season.part_of_the_series self) as [series|e]; try reflexivity.
  apply take_first_truncated.
Qed.

Lemma wrapped_truncated (cls : Kind) (p : ItemPage) :
  first_answer_only
    (let* successor := BaseType.new cls p in ret (Some successor)).
Proof.
  intros w. rewrite !bind_run, new_truncated.
  by destruct (BaseType.new cls p w) as [[successor|e] w1].
Qed.

Lemma Episode_next_truncated (self : BaseType) :
  first_answer_only (Episode.next self).
Proof.
  intros w. destruct (claims self !! pid FOLLOWED_BY) as [l|] eqn:Hfact.
  - rewrite !(Episode_next_forward_run self _ l Hfact).
    destruct l as [|c cs]; [reflexivity|]. apply wrapped_truncated.
  - rewrite !(Episode_next_run self _ Hfact), take_first_truncated.
    destruct (take_first _ _ w) as [[[found|]|e] w1]; cbn [prod_map fst snd id];
      try reflexivity.
    destruct (Episode.ordinal_in_series self) as [[n|]|e]; try reflexivity.
    + apply Episode_next_in_series_truncated.
    + destruct (Episode.ordinal_in_season self) as [[n|]|e]; try reflexivity.
      apply Episode_next_in_season_truncated.
Qed.

Lemma Season_next_truncated (self : BaseType) :
  first_answer_only (Season.next self).
Proof.
  intros w. destruct (claims self !! pid FOLLOWED_BY) as [l|] eqn:Hfact.
  - rewrite !(Season_next_forward_run self _ l Hfact).
    destruct l as [|c cs]; [reflexivity|]. apply wrapped_truncated.
  - rewrite !(Season_next_run self _ Hfact), take_first_truncated.
    destruct (take_first _ _ w) as [[[found|]|e] w1]; cbn [prod_map fst snd id];
      try reflexivity.
    destruct (Season.ordinal_in_series self) as [[n|]|e]; try reflexivity.
    apply Season_next_in_series_truncated.
Qed.

End Strategy_logs.

Section Reverse_lookup_logs.
Context `{Vocabulary}.

Lemma Episode_season_of_ordinal (self : BaseType) (n : Z) :
  Episode.ordinal_in_season self = Ok (Some n) →
  ∃ season, Episode.season self = Ok (Some season).
Proof.
  unfold Episode.ordinal_in_season, Episode.season.
  destruct (contains (claims self) (pid SEASON)); [|discriminate].
  cbn [negb]. destruct (getitem _ _) as [[|c cs]|e]; cbn; try discriminate.
  eauto.
Qed.

(** What follows an empty reverse lookup: nothing, or one strategy. *)
Lemma after_empty_lookup {A} (w : World) (query : string)
    (outcome : Result A * World) :
  endpoint w query = [] →
  at_most_one_query (logged w [EvQuery query]) outcome →
  reverse_lookup_first w query outcome.
Proof.
  intros Hanswer (added & Hlog & Hq & Hy). exists added.
  split; [|done]. rewrite Hlog. cbn [log logged].
  by rewrite <- app_assoc.
Qed.

Lemma take_first_reverse_lookup (cls : Kind) (query : string) (w : World)
    (p : ItemPage) (others : list ItemPage) :
  endpoint w query = p :: others →
  reverse_lookup_first w query (take_first cls query w).
Proof.
  intros Hanswer. unfold reverse_lookup_first.
  rewrite take_first_run, Hanswer.
  destruct (items w !! page_title p); eexists; cbn [snd log logged];
    (split; [reflexivity|]); (split; [repeat constructor|]);
    (split; [repeat constructor|reflexivity]).
Qed.

Lemma Episode_next_reverse_lookup (self : BaseType) (w : World) :
  claims self !! pid FOLLOWED_BY = None →
  reverse_lookup_first w (follows_query self) (Episode.next self w).
Proof.
  intros Hfact. rewrite (Episode_next_run self w Hfact).
  destruct (endpoint w (follows_query self)) as [|p others] eqn:Hanswer.
  - rewrite take_first_run, Hanswer. apply after_empty_lookup; [done|].
    destruct (Episode.ordinal_in_series self) as [[n|]|e];
      [apply Episode_next_in_series_at_most| |apply silent_at_most].
    destruct (Episode.ordinal_in_season self) as [[n|]|e];
      [apply Episode_next_in_season_at_most|apply silent_at_most..].
  - pose proof (take_first_reverse_lookup KEpisode _ w p others Hanswer) as Hfirst.
    rewrite take_first_run, Hanswer in Hfirst |- *.
    by destruct (items w !! page_title p).
Qed.

Lemma Season_next_reverse_lookup (self : BaseType) (w : World) :
  claims self !! pid FOLLOWED_BY = None →
  reverse_lookup_first w (follows_query self) (Season.next self w).
Proof.
  intros Hfact. rewrite (Season_next_run self w Hfact).
  destruct (endpoint w (follows_query self)) as [|p others] eqn:Hanswer.
  - rewrite take_first_run, Hanswer. apply after_empty_lookup; [done|].
    destruct (Season.ordinal_in_series self) as [[n|]|e];
      [apply Season_next_in_series_at_most|apply silent_at_most..].
  - pose proof (take_first_reverse_lookup KSeason _ w p others Hanswer) as Hfirst.
    rewrite take_first_run, Hanswer in Hfirst |- *.
    by destruct (items w !! page_title p).
Qed.

End Reverse_lookup_logs.

(** C6. Every strategy after the forward link asks the endpoint exactly
    one query per attempt and takes the first element of the answer, and
    no other.  An attempted ordinal strategy logs one query and then at
    most one element, and its outcome is that of its query with the first
    answer taken: absent when the endpoint has no answer, otherwise the
    first answer read from the store and wrapped.  [next] without a
    followed-by fact logs the reverse-lookup query first, then at most
    the one query of one ordinal strategy, and at most one element in
    all; when the reverse lookup has an answer its outcome is that of the
    lookup with the first answer taken.  None of the methods sees the
    answers after the first: with every answer cut down to its first item
    the outcome and the log are the same. *)
Theorem one_query_first_answer `{Vocabulary} (self : BaseType) (w : World) :
  (∀ n, Episode.ordinal_in_series self = Ok (Some n) →
        one_query w (Episode.next_in_series self w) ∧
        ∃ series,
          Episode.part_of_the_series self = Ok (Some series) ∧
          Episode.next_in_series self w =
            first_answer_outcome KEpisode
              (Episode.series_query (Some series) n) w) ∧
  (∀ n series,
     Episode.ordinal_in_season self = Ok (Some n) →
     Episode.part_of_the_series self = Ok series →
     one_query w (Episode.next_in_season self w) ∧
     ∃ season,
       Episode.season self = Ok (Some season) ∧
       Episode.next_in_season self w =
         first_answer_outcome KEpisode
           (Episode.season_query series (Some season) n) w) ∧
  (∀ n, Season.ordinal_in_series self = Ok (Some n) →
        one_query w (Season.next_in_series self w) ∧
        ∃ series,
          Season.part_of_the_series self = Ok (Some series) ∧
          Season.next_in_series self w =
            first_answer_outcome KSeason
              (Season.series_query (Some series) n) w) ∧
  (kind self ≠ KSeries →
   claims self !! pid FOLLOWED_BY = None →
   reverse_lookup_first w (follows_query self) (next self w) ∧
   (∀ p others,
      endpoint w (follows_query self) = p :: others →
      next self w = first_answer_outcome (kind self) (follows_query self) w)) ∧
  Forall (λ method : BaseType → M (option BaseType),
            first_answer_only (method self))
    [Episode.next; Episode.next_in_series; Episode.next_in_season;
     Season.next; Season.next_in_series].
Proof.
  split; [|split; [|split; [|split]]].
  - intros n Hordinal.
    destruct (Episode_series_of_ordinal self n Hordinal) as [series Hseries].
    rewrite Episode_next_in_series_run, Hordinal, Hseries.
    split; [apply take_first_one_query|].
    exists series. split; [reflexivity|apply take_first_run].
  - intros n series Hordinal Hseries.
    destruct (Episode_season_of_ordinal self n Hordinal) as [season Hseason].
    rewrite Episode_next_in_season_run, Hordinal, Hseries, Hseason.
    split; [apply take_first_one_query|].
    exists season. split; [reflexivity|apply take_first_run].
  - intros n Hordinal.
    destruct (Season_series_of_ordinal self n Hordinal) as [series Hseries].
    rewrite Season_next_in_series_run, Hordinal, Hseries.
    split; [apply take_first_one_query|].
    exists series. split; [reflexivity|apply take_first_run].
  - intros Hkind Hfact. unfold next. destruct (kind self); [done| |]; split.
    + by apply Season_next_reverse_lookup.
    + intros p others Hanswer.
      rewrite (Season_next_run self w Hfact), take_first_run.
      unfold first_answer_outcome. rewrite Hanswer.
      by destruct (items w !! page_title p).
    + by apply Episode_next_reverse_lookup.
    + intros p others Hanswer.
      rewrite (Episode_next_run self w Hfact), take_first_run.
      unfold first_answer_outcome. rewrite Hanswer.
      by destruct (items w !! page_title p).
  - repeat constructor.
    + apply Episode_next_truncated.
    + apply Episode_next_in_series_truncated.
    + apply Episode_next_in_season_truncated.
    + apply Season_next_truncated.
    + apply Season_next_in_series_truncated.
Qed.

Section One_query_examples.
#[local] Existing Instance wikidata.

(** Of the two seasons numbered 2 that the endpoint knows, Q3 comes
    first and is the one returned. *)
Lemma one_query_first_answer_witness :
  one_query duplicate_world (Season.next_in_series first_season duplicate_world) ∧
  Season.next_in_series first_season duplicate_world
    = (Ok (Some (entity KSeason "Q3" ∅)),
       logged duplicate_world
         [EvQuery (Season.series_query (Some "Q1") 1); EvYield (page "Q3");
          EvGet "Q3"; EvSite]) ∧
  reverse_lookup_first duplicate_world (follows_query first_season)
    (next first_season duplicate_world) ∧
  (Season.next first_season (truncated duplicate_world)).1
    = (Season.next first_season duplicate_world).1.
Proof.
  destruct (one_query_first_answer (H := wikidata) first_season duplicate_world)
    as (_ & _ & Hseries & Hnext & Honly).
  destruct (Hseries 1%Z eq_refl) as (Hone & series & Hof & Houtcome).
  split; [exact Hone|]. split; [|split].
  - rewrite Houtcome. injection Hof as <-. reflexivity.
  - apply Hnext; [discriminate|reflexivity].
  - rewrite Forall_forall in Honly.
    rewrite (Honly Season.next);
      [|do 3 (apply elem_of_cons; right); apply elem_of_cons; by left].
    by destruct (Season.next first_season duplicate_world).
Defined.

End One_query_examples.

(** ** Constraint lists *)

(** Splits a membership in an explicit list into its cases. *)
Ltac members Hin :=
  cbn in Hin;
  repeat (apply elem_of_cons in Hin as [Hin|Hin]);
  [ .. | by apply elem_of_nil in Hin ].

(** The list of a Series does not check inheritance: it has no
    inheritance check at all. *)
Lemma series_checks_no_inheritance :
  ¬ checks_inheritance (constraints (entity KSeries "Q1" ∅)).
Proof.
  intros Hall. destruct (Hall ORIGINAL_NETWORK) as [_ Hin].
  assert (Hmember : inherits_property ORIGINAL_NETWORK
                      ∈ constraints (entity KSeries "Q1" ∅))
    by (apply Hin; repeat constructor).
  members Hmember; discriminate.
Qed.

(** C7, amended. The constraints of an instance are a fixed list that
    depends on its class only.  For an Episode: thirteen presence checks,
    the two relation checks, then the inheritance checks of the four
    properties.  For a Season: nine presence checks, the followed-by
    relation check, then the same four inheritance checks.  For a Series:
    seven presence checks and nothing else, neither inheritance nor
    relation checks. *)
Theorem constraints_by_variant (self : BaseType) :
  match kind self with
  | KEpisode =>
      constraints self =
        ((has_property <$>
            [INSTANCE_OF; TITLE; PART_OF_THE_SERIES; SEASON; ORIGINAL_NETWORK;
             COUNTRY_OF_ORIGIN; ORIGNAL_LANGUAGE_OF_FILM_OR_TV_SHOW;
             PRODUCTION_COMPANY; PUBLICATION_DATE; DIRECTOR; FOLLOWED_BY;
             DURATION; IMDB_ID])
         ++ [follows_something; is_followed_by_something]
         ++ (inherits_property <$> inheritable))%list
  | KSeason =>
      constraints self =
        ((has_property <$>
            [INSTANCE_OF; PART_OF_THE_SERIES; ORIGINAL_NETWORK;
             COUNTRY_OF_ORIGIN; ORIGNAL_LANGUAGE_OF_FILM_OR_TV_SHOW;
             PRODUCTION_COMPANY; FOLLOWS; HAS_PART; NUMBER_OF_EPISODES])
         ++ [is_followed_by_something]
         ++ (inherits_property <$> inheritable))%list
  | KSeries =>
      constraints self =
        has_property <$>
          [INSTANCE_OF; TITLE; ORIGINAL_NETWORK; COUNTRY_OF_ORIGIN;
           ORIGNAL_LANGUAGE_OF_FILM_OR_TV_SHOW; PRODUCTION_COMPANY; IMDB_ID]
  end ∧
  (kind self ≠ KSeries → checks_inheritance (constraints self)) ∧
  (kind self = KSeries ↔
     ∀ c, c ∈ constraints self → ∃ prop, c = has_property prop).
Proof.
  assert (Hfour : ∀ (cs : list Constraint) prop,
            (∀ c, c ∈ cs → ∀ p, c ≠ inherits_property p) →
            inherits_property prop ∈ (cs ++ (inherits_property <$> inheritable))%list
            ↔ prop ∈ inheritable).
  { intros cs prop Hnone. rewrite elem_of_app. split.
    - intros [Hin|Hin]; [by destruct (Hnone _ Hin prop)|].
      members Hin; injection Hin as ->; repeat constructor.
    - intros Hin. right. members Hin; subst prop; repeat constructor. }
  unfold constraints.
  destruct (kind self); (split; [reflexivity|]); split.
  - intros Hkind. by destruct Hkind.
  - split; [|done]. intros _ c Hin. members Hin; eauto.
  - intros _ prop.
    apply (Hfour (Season._property_constraints self)).
    intros c Hin p. members Hin; by subst c.
  - split; [done|]. intros Honly.
    destruct (Honly is_followed_by_something) as [prop [=]].
    cbn. repeat constructor.
  - intros _ prop.
    apply (Hfour (Episode._property_constraints self)).
    intros c Hin p. members Hin; by subst c.
  - split; [done|]. intros Honly.
    destruct (Honly is_followed_by_something) as [prop [=]].
    cbn. repeat constructor.
Qed.

(** ** Repeated evaluation *)

Lemma same_backing_refl (w : World) : same_backing w w.
Proof. by split. Qed.

Lemma same_backing_trans (w1 w2 w3 : World) :
  same_backing w1 w2 → same_backing w2 w3 → same_backing w1 w3.
Proof. intros [Hi He] [Hi' He']. split; congruence. Qed.

Lemma same_backing_sym (w w' : World) : same_backing w w' → same_backing w' w.
Proof. intros [Hi He]. by split. Qed.

Lemma repeatable_ret {A} (a : A) : repeatable (ret a).
Proof. intros w. split; [apply same_backing_refl|done]. Qed.

Lemma repeatable_lift {A} (r : Result A) : repeatable (lift r).
Proof. intros w. split; [apply same_backing_refl|done]. Qed.

Lemma repeatable_bind {A B} (m : M A) (k : A → M B) :
  repeatable m → (∀ a, repeatable (k a)) → repeatable (bind m k).
Proof.
  intros Hm Hk w. destruct (Hm w) as [Hkeep Hsame]. rewrite bind_run. split.
  - destruct (m w) as [[a|e] w1]; [|exact Hkeep].
    destruct (Hk a w1) as [Hkeep' _]. by eapply same_backing_trans.
  - intros w' Hw'. rewrite bind_run. specialize (Hsame w' Hw').
    destruct (Hm w') as [Hkeep' _].
    destruct (m w) as [[a|e] w1], (m w') as [[a'|e'] w1'];
      cbn in Hsame; simplify_eq; [|done].
    destruct (Hk a w1) as [_ Hsame']. apply Hsame'.
    eapply same_backing_trans; [apply same_backing_sym, Hkeep|].
    by eapply same_backing_trans.
Qed.

Lemma repeatable_new (cls : Kind) (p : ItemPage) : repeatable (BaseType.new cls p).
Proof.
  intros w. rewrite new_run. split.
  - by destruct (items w !! page_title p).
  - intros w' [Hitems _]. rewrite new_run, Hitems.
    by destruct (items w !! page_title p).
Qed.

Section Repeatable_evaluation.
Context `{Vocabulary}.

Lemma repeatable_parent (self : BaseType) : repeatable (parent self).
Proof.
  unfold parent, Episode.parent, Season.parent, Series.parent, BaseType.parent.
  destruct (kind self);
    repeat first [ apply repeatable_ret | apply repeatable_lift
                 | apply repeatable_new
                 | apply repeatable_bind; [|intros ?] ].
Qed.

Lemma repeatable_inherits (depth : nat) (prop : WikidataProperty) (self : BaseType) :
  repeatable (Constraints.inherits depth prop self).
Proof.
  revert self. induction depth as [|depth IH]; intros self; cbn [Constraints.inherits].
  - apply repeatable_ret.
  - destruct (contains (claims self) (pid prop)); [apply repeatable_ret|].
    apply repeatable_bind; [apply repeatable_parent|].
    intros [ancestor|]; [apply IH|apply repeatable_ret].
Qed.

Lemma repeatable_validate (c : Constraint) (self : BaseType) :
  repeatable (Constraints.validate c self).
Proof.
  destruct c; cbn [Constraints.validate];
    first [apply repeatable_ret | apply repeatable_inherits].
Qed.

Lemma repeatable_validate_all (cs : list Constraint) (self : BaseType) :
  repeatable (Constraints.validate_all cs self).
Proof.
  induction cs as [|c cs IH]; cbn [Constraints.validate_all].
  - apply repeatable_ret.
  - apply repeatable_bind; [apply repeatable_validate|]. intros b.
    apply repeatable_bind; [exact IH|]. intros bs. apply repeatable_ret.
Qed.

End Repeatable_evaluation.

(** C8. Evaluating the constraints of an instance leaves the store and
    the query service as they were, and the outcome, the pass/fail list
    or the exception, is the same in every world with that store and
    that service: a second evaluation, right after the first or after
    other calls were logged, gives the first one's outcome again. *)
Theorem constraints_evaluation_repeatable `{Vocabulary} (self : BaseType) (w : World) :
  let first := Constraints.evaluate self w in
  let second := Constraints.evaluate self first.2 in
  second.1 = first.1 ∧
  same_backing w first.2 ∧
  (∀ w', same_backing w w' → (Constraints.evaluate self w').1 = first.1).
Proof.
  intros first second.
  destruct (repeatable_validate_all (constraints self) self w) as [Hkeep Hsame].
  split; [|split].
  - apply Hsame, Hkeep.
  - exact Hkeep.
  - exact Hsame.
Qed.

Section Evaluation_examples.
#[local] Existing Instance wikidata.

Example evaluate_checked_season :
  (Constraints.evaluate checked_season checked_world).1 =
    Ok [false; true; true; false; false; false; false; false; false;
        false;
        true; true; false; false].
Proof. vm_compute. reflexivity. Qed.

Lemma constraints_evaluation_repeatable_witness :
  (Constraints.evaluate checked_season
     (Constraints.evaluate checked_season checked_world).2).1
  = (Constraints.evaluate checked_season checked_world).1.
Proof.
  pose proof (constraints_evaluation_repeatable (H := wikidata)
                checked_season checked_world) as Hrepeat.
  cbv zeta in Hrepeat. destruct Hrepeat as [Hagain _]. exact Hagain.
Defined.

End Evaluation_examples.

(** * Further properties *)

(** ** Parents that exist *)

(** Building an instance on a page: one store read; the instance holds
    the store's claims of the page, or the read raises. *)
Lemma wrapped_run (cls : Kind) (p : ItemPage) (w : World) :
  (let* successor := BaseType.new cls p in ret (Some successor)) w =
    match items w !! page_title p with
    | Some content =>
        (Ok (Some {| kind := cls; itempage := p; claims := content |}),
         logged w [EvGet (page_title p); EvSite])
    | None =>
        (Raise (NoPageError (page_title p)), logged w [EvGet (page_title p)])
    end.
Proof.
  rewrite bind_run, new_run. by destruct (items w !! page_title p).
Qed.

Section Parent_runs.
Context `{Vocabulary}.

Lemma Episode_parent_run (self : BaseType) (w : World) (l : list Claim) :
  claims self !! pid SEASON = Some l →
  Episode.parent self w =
    match l with
    | [] => (Raise IndexError, w)
    | c :: _ =>
        (let* season := BaseType.new KSeason (getTarget c) in
         ret (Some season)) w
    end.
Proof.
  intros Hfact. unfold Episode.parent. rewrite bind_run. unfold lift.
  read_dicts. by destruct l.
Qed.

Lemma Season_parent_run (self : BaseType) (w : World) (l : list Claim) :
  claims self !! pid PART_OF_THE_SERIES = Some l →
  Season.parent self w =
    match l with
    | [] => (Raise IndexError, w)
    | c :: _ =>
        (let* series := BaseType.new KSeries (getTarget c) in
         ret (Some series)) w
    end.
Proof.
  intros Hfact. unfold Season.parent. rewrite bind_run. unfold lift.
  read_dicts. by destruct l.
Qed.

(** A parent is one class up. *)
Lemma parent_rank (self : BaseType) (w : World) (above : BaseType) :
  (parent self w).1 = Ok (Some above) →
  S (rank (kind above)) = rank (kind self).
Proof.
  unfold parent. destruct (kind self); intros Hparent.
  - discriminate.
  - by rewrite (Season_parent_kind self w above Hparent).
  - by rewrite (Episode_parent_kind self w above Hparent).
Qed.

Lemma ancestor_rank (n : nat) (self : BaseType) (w : World) (above : BaseType) :
  (ancestor n self w).1 = Ok (Some above) →
  (rank (kind above) + n = rank (kind self))%nat.
Proof.
  revert self w. induction n as [|n IH]; intros self w; cbn [ancestor].
  - intros [= ->]. lia.
  - rewrite bind_run. pose proof (parent_rank self w) as Hrank.
    destruct (parent self w) as [[[up|]|e] w1]; cbn [fst] in *;
      [|discriminate..].
    intros Hrest. specialize (IH up w1 Hrest).
    specialize (Hrank up eq_refl). lia.
Qed.

End Parent_runs.

(** X1. When the parent-link fact is there, the parent of an Episode is
    the Season built on the target of its first season fact, and the
    parent of a Season is the Series built on the target of its first
    part-of-the-series fact.  The call reads the store once, asks the
    endpoint nothing, and raises [NoPageError] when the store does not
    have the target.  The identifier that [season] (resp.
    [part_of_the_series]) reports is the title of that parent. *)
Theorem parent_reads_first_link `{Vocabulary}
    (self : BaseType) (w : World) (c : Claim) (cs : list Claim) :
  let found cls :=
    match items w !! page_title (getTarget c) with
    | Some content =>
        (Ok (Some {| kind := cls; itempage := getTarget c; claims := content |}),
         logged w [EvGet (page_title (getTarget c)); EvSite])
    | None =>
        (Raise (NoPageError (page_title (getTarget c))),
         logged w [EvGet (page_title (getTarget c))])
    end in
  (kind self = KEpisode →
   claims self !! pid SEASON = Some (c :: cs) →
   parent self w = found KSeason ∧
   Episode.season self = Ok (Some (page_title (getTarget c)))) ∧
  (kind self = KSeason →
   claims self !! pid PART_OF_THE_SERIES = Some (c :: cs) →
   parent self w = found KSeries ∧
   Season.part_of_the_series self = Ok (Some (page_title (getTarget c)))).
Proof.
  intros found. subst found. unfold parent. split; intros -> Hfact; split.
  - by rewrite (Episode_parent_run self w _ Hfact), wrapped_run.
  - unfold Episode.season. by read_dicts.
  - by rewrite (Season_parent_run self w _ Hfact), wrapped_run.
  - unfold Season.part_of_the_series. by read_dicts.
Qed.

Section Parent_found_examples.
#[local] Existing Instance wikidata.

Lemma parent_reads_first_link_witness :
  parent crowded_episode (world {[ "Q2" := ∅ ]} (λ _, []))
    = (Ok (Some (entity KSeason "Q2" ∅)),
       logged (world {[ "Q2" := ∅ ]} (λ _, [])) [EvGet "Q2"; EvSite]) ∧
  Episode.season crowded_episode = Ok (Some "Q2").
Proof.
  pose proof (parent_reads_first_link (H := wikidata) crowded_episode
                (world {[ "Q2" := ∅ ]} (λ _, []))
                {| getTarget := page "Q2";
                   qualifiers :=
                     {[ "P1545" := [ {| qualifier_getTarget := "3" |};
                                     {| qualifier_getTarget := "30" |} ] ]} |}
                [numbered "Q5" "9"]) as Hparent.
  cbv zeta in Hparent. destruct Hparent as [Hepisode _].
  apply Hepisode; reflexivity.
Defined.

End Parent_found_examples.

(** ** The parent chain *)

(** X2. Following [parent] from any instance goes one class up at each
    step, so the chain is at most two parents long whatever the store
    holds: the [n]-th ancestor, when there is one, is [n] classes above,
    and past the rank of the class there is none, only absence or an
    exception.  A store in which an item names itself as its own series
    cannot make the chain loop. *)
Theorem parent_chain_bounded `{Vocabulary} (n : nat) (self : BaseType) (w : World) :
  (∀ above, (ancestor n self w).1 = Ok (Some above) →
            (rank (kind above) + n = rank (kind self))%nat) ∧
  ((rank (kind self) < n)%nat →
   ∀ above, (ancestor n self w).1 ≠ Ok (Some above)).
Proof.
  split.
  - intros above. apply ancestor_rank.
  - intros Hpast above Hreached.
    apply ancestor_rank in Hreached. lia.
Qed.

Section Parent_chain_examples.
#[local] Existing Instance wikidata.

Lemma parent_chain_bounded_witness :
  (ancestor 1 looping_season looping_world).1
    = Ok (Some (entity KSeries "Q2" {[ "P179" := [plain "Q2"] ]})) ∧
  (ancestor 2 looping_season looping_world).1 = Ok None ∧
  ∀ above, (ancestor 2 looping_season looping_world).1 ≠ Ok (Some above).
Proof.
  split; [reflexivity|]. split; [reflexivity|].
  apply (parent_chain_bounded (H := wikidata) 2 looping_season looping_world).
  cbn. lia.
Defined.

End Parent_chain_examples.

(** ** What the successor search can raise *)

Lemma first_raises {A} (l : list A) (e : Exn) : first l = Raise e → e = IndexError.
Proof. destruct l; [by intros [= <-]|discriminate]. Qed.

(** A lookup behind its membership test does not raise [KeyError]. *)
Lemma guarded_getitem {V} (d : gmap string V) (k : string) :
  contains d k = true → ∃ v, getitem d k = Ok v.
Proof.
  unfold contains, getitem. intros Hin. apply bool_decide_eq_true in Hin.
  destruct Hin as [v ->]. eauto.
Qed.

(** Splits a guarded read [d[k][0]] into its cases. *)
Ltac guarded_first d k :=
  let Hin := fresh "Hin" in
  let l := fresh "l" in
  let Hl := fresh "Hl" in
  destruct (contains d k) eqn:Hin; cbn [negb];
  [ destruct (guarded_getitem d k Hin) as [l Hl]; rewrite Hl; cbn [rbind];
    destruct l; cbn [first rbind]
  | ].

Section Exceptions.
Context `{Vocabulary}.

Ltac ordinal_raises :=
  intros e;
  match goal with
  | |- context [contains (claims ?self) ?k] => guarded_first (claims self) k
  end; try discriminate;
  [ intros [= <-]; by left
  | match goal with
    | |- context [contains (qualifiers ?c) ?k] => guarded_first (qualifiers c) k
    end; try discriminate;
    [ intros [= <-]; by left
    | match goal with
      | |- context [int ?s] =>
          let Hint := fresh "Hint" in
          destruct (int s) eqn:Hint; cbn [rbind]; [discriminate|];
          intros [= <-]; right; by eapply int_raises
      end ] ].

Lemma Episode_ordinal_in_series_raises (self : BaseType) :
  ∀ e, Episode.ordinal_in_series self = Raise e → e = IndexError ∨ e = ValueError.
Proof. unfold Episode.ordinal_in_series. ordinal_raises. Qed.

Lemma Episode_ordinal_in_season_raises (self : BaseType) :
  ∀ e, Episode.ordinal_in_season self = Raise e → e = IndexError ∨ e = ValueError.
Proof. unfold Episode.ordinal_in_season. ordinal_raises. Qed.

Lemma Season_ordinal_in_series_raises (self : BaseType) :
  ∀ e, Season.ordinal_in_series self = Raise e → e = IndexError ∨ e = ValueError.
Proof. unfold Season.ordinal_in_series. ordinal_raises. Qed.

Ltac identifier_raises :=
  intros e;
  match goal with
  | |- context [contains (claims ?self) ?k] => guarded_first (claims self) k
  end; try discriminate; by intros [= <-].

Lemma Episode_part_of_the_series_raises (self : BaseType) :
  ∀ e, Episode.part_of_the_series self = Raise e → e = IndexError.
Proof. unfold Episode.part_of_the_series. identifier_raises. Qed.

Lemma Episode_season_raises (self : BaseType) :
  ∀ e, Episode.season self = Raise e → e = IndexError.
Proof. unfold Episode.season. identifier_raises. Qed.

Lemma Season_part_of_the_series_raises (self : BaseType) :
  ∀ e, Season.part_of_the_series self = Raise e → e = IndexError.
Proof. unfold Season.part_of_the_series. identifier_raises. Qed.

Lemma take_first_raises (cls : Kind) (query : string) (w : World) (e : Exn) :
  (take_first cls query w).1 = Raise e → lookup_failure e.
Proof.
  rewrite take_first_run. destruct (endpoint w query) as [|p others]; [discriminate|].
  destruct (items w !! page_title p); [discriminate|].
  intros [= <-]. right. right. eauto.
Qed.

Lemma wrapped_raises (cls : Kind) (p : ItemPage) (w : World) (e : Exn) :
  ((let* successor := BaseType.new cls p in ret (Some successor)) w).1 = Raise e →
  lookup_failure e.
Proof.
  rewrite wrapped_run. destruct (items w !! page_title p); [discriminate|].
  intros [= <-]. right. right. eauto.
Qed.

Lemma index_failure (e : Exn) : e = IndexError → lookup_failure e.
Proof. by left. Qed.

Lemma ordinal_failure (e : Exn) : e = IndexError ∨ e = ValueError → lookup_failure e.
Proof. intros [->| ->]; [by left|by right; left]. Qed.

Lemma Episode_next_in_series_raises (self : BaseType) (w : World) (e : Exn) :
  (Episode.next_in_series self w).1 = Raise e → lookup_failure e.
Proof.
  rewrite Episode_next_in_series_run.
  pose proof (Episode_ordinal_in_series_raises self) as Hordinal.
  destruct (Episode.ordinal_in_series self) as [[n|]|e1]; cbn [fst];
    [|discriminate|intros [= <-]; by apply ordinal_failure, Hordinal].
  pose proof (Episode_part_of_the_series_raises self) as Hseries.
  destruct (Episode.part_of_the_series self) as [series|e1]; cbn [fst];
    [apply take_first_raises|intros [= <-]; by apply index_failure, Hseries].
Qed.

Lemma Episode_next_in_season_raises (self : BaseType) (w : World) (e : Exn) :
  (Episode.next_in_season self w).1 = Raise e → lookup_failure e.
Proof.
  rewrite Episode_next_in_season_run.
  pose proof (Episode_ordinal_in_season_raises self) as Hordinal.
  destruct (Episode.ordinal_in_season self) as [[n|]|e1]; cbn [fst];
    [|discriminate|intros [= <-]; by apply ordinal_failure, Hordinal].
  pose proof (Episode_part_of_the_series_raises self) as Hseries.
  destruct (Episode.part_of_the_series self) as [series|e1]; cbn [fst];
    [|intros [= <-]; by apply index_failure, Hseries].
  pose proof (Episode_season_raises self) as Hseason.
  destruct (Episode.season self) as [season|e1]; cbn [fst];
    [apply take_first_raises|intros [= <-]; by apply index_failure, Hseason].
Qed.

Lemma Season_next_in_series_raises (self : BaseType) (w : World) (e : Exn) :
  (Season.next_in_series self w).1 = Raise e → lookup_failure e.
Proof.
  rewrite Season_next_in_series_run.
  pose proof (Season_ordinal_in_series_raises self) as Hordinal.
  destruct (Season.ordinal_in_series self) as [[n|]|e1]; cbn [fst];
    [|discriminate|intros [= <-]; by apply ordinal_failure, Hordinal].
  pose proof (Season_part_of_the_series_raises self) as Hseries.
  destruct (Season.part_of_the_series self) as [series|e1]; cbn [fst];
    [apply take_first_raises|intros [= <-]; by apply index_failure, Hseries].
Qed.

Lemma Episode_next_raises (self : BaseType) (w : World) (e : Exn) :
  (Episode.next self w).1 = Raise e → lookup_failure e.
Proof.
  destruct (claims self !! pid FOLLOWED_BY) as [l|] eqn:Hfact.
  - rewrite (Episode_next_forward_run self w l Hfact).
    destruct l as [|c cs]; [intros [= <-]; by left|apply wrapped_raises].
  - rewrite (Episode_next_run self w Hfact).
    pose proof (take_first_raises KEpisode (follows_query self) w) as Hfirst.
    destruct (take_first _ _ w) as [[[found|]|e1] w1]; cbn [fst] in *;
      [discriminate| |auto].
    pose proof (Episode_ordinal_in_series_raises self) as Hseries.
    destruct (Episode.ordinal_in_series self) as [[n|]|e1];
      [apply Episode_next_in_series_raises|
      |intros [= <-]; by apply ordinal_failure, Hseries].
    pose proof (Episode_ordinal_in_season_raises self) as Hseason.
    destruct (Episode.ordinal_in_season self) as [[n|]|e1];
      [apply Episode_next_in_season_raises|discriminate
      |intros [= <-]; by apply ordinal_failure, Hseason].
Qed.

Lemma Season_next_raises (self : BaseType) (w : World) (e : Exn) :
  (Season.next self w).1 = Raise e → lookup_failure e.
Proof.
  destruct (claims self !! pid FOLLOWED_BY) as [l|] eqn:Hfact.
  - rewrite (Season_next_forward_run self w l Hfact).
    destruct l as [|c cs]; [intros [= <-]; by left|apply wrapped_raises].
  - rewrite (Season_next_run self w Hfact).
    pose proof (take_first_raises KSeason (follows_query self) w) as Hfirst.
    destruct (take_first _ _ w) as [[[found|]|e1] w1]; cbn [fst] in *;
      [discriminate| |auto].
    pose proof (Season_ordinal_in_series_raises self) as Hseries.
    destruct (Season.ordinal_in_series self) as [[n|]|e1];
      [apply Season_next_in_series_raises|discriminate
      |intros [= <-]; by apply ordinal_failure, Hseries].
Qed.

End Exceptions.

(** X3. Unlike [parent], the successor search never raises [KeyError]:
    every read of [self.claims] and of the qualifiers in [next] and
    [next_in_series] of an Episode or a Season, and in [next_in_season]
    of an Episode, is behind a membership test, so a missing fact or
    qualifier is never an exception of the search. *)
Theorem successor_search_raises `{Vocabulary}
    (self : BaseType) (w : World) (e : Exn) :
  kind self ≠ KSeries →
  (next self w).1 = Raise e ∨
  (next_in_series self w).1 = Raise e ∨
  (kind self = KEpisode ∧ (Episode.next_in_season self w).1 = Raise e) →
  ∀ key, e ≠ KeyError key.
Proof.
  intros Hkind Hraised.
  assert (Hfailure : lookup_failure e).
  { unfold next, next_in_series in Hraised.
    destruct (kind self); [done| |];
      destruct Hraised as [Hnext|[Hseries|[Hepisode Hseason]]];
      try discriminate;
      eauto using Episode_next_raises, Season_next_raises,
        Episode_next_in_series_raises, Season_next_in_series_raises,
        Episode_next_in_season_raises. }
  intros key. by destruct Hfailure as [->|[->|[title ->]]].
Qed.

Section Exception_examples.
#[local] Existing Instance wikidata.

(** An episode with no fact at all: its parent raises [KeyError], its
    successor search does not. *)
Lemma successor_search_raises_witness :
  (parent (entity KEpisode "Q10" ∅) (world ∅ (λ _, []))).1
    = Raise (KeyError "P4908") ∧
  (next (entity KEpisode "Q10" ∅) (world ∅ (λ _, []))).1 = Ok None ∧
  (next garbled_episode (world ∅ (λ _, []))).1 = Raise ValueError ∧
  ∀ key, ValueError ≠ KeyError key.
Proof.
  split; [reflexivity|]. split; [reflexivity|]. split; [reflexivity|].
  apply (successor_search_raises (H := wikidata) garbled_episode
           (world ∅ (λ _, [])) ValueError); [discriminate|].
  left. reflexivity.
Defined.

End Exception_examples.

(** ** The cost of a successor search *)

Lemma same_backing_logged (w : World) (evs : list Event) :
  same_backing w (logged w evs).
Proof. by split. Qed.

Lemma within_cost_silent {A} (budget : nat) (r : Result (option A)) (w : World) :
  within_cost budget w (r, w).
Proof.
  exists []. cbn [fst snd]. rewrite app_nil_r.
  split; [reflexivity|]. split; [apply Nat.le_0_l|].
  split; [repeat constructor|]. split; [repeat constructor|].
  split; [done|apply same_backing_refl].
Qed.

Lemma within_cost_more {A} (budget budget' : nat)
    (w : World) (outcome : Result (option A) * World) :
  (budget ≤ budget')%nat → within_cost budget w outcome → within_cost budget' w outcome.
Proof.
  intros Hle (added & Hlog & Hq & Hrest). exists added.
  split; [exact Hlog|]. split; [lia|exact Hrest].
Qed.

(** A search run after one query costs one query more. *)
Lemma within_cost_after_query {A} (budget : nat) (query : string)
    (w : World) (outcome : Result (option A) * World) :
  within_cost budget (logged w [EvQuery query]) outcome →
  within_cost (S budget) w outcome.
Proof.
  intros (added & Hlog & Hq & Hy & Hg & Hnone & Hitems & Hendpoint).
  exists (EvQuery query :: added). cbn [log logged] in Hlog.
  split; [by rewrite Hlog, <- app_assoc|].
  split; [change (S (queries added) ≤ S budget)%nat; lia|].
  split; [exact Hy|]. split; [exact Hg|]. split; [exact Hnone|].
  by split.
Qed.

Lemma wrapped_cost (cls : Kind) (p : ItemPage) (w : World) :
  within_cost 0 w
    ((let* successor := BaseType.new cls p in ret (Some successor)) w).
Proof.
  rewrite wrapped_run.
  destruct (items w !! page_title p); eexists; cbn [fst snd log logged];
    (split; [reflexivity|]); (split; [repeat constructor|]);
    (split; [repeat constructor|]); (split; [repeat constructor|]);
    (split; [discriminate|apply same_backing_logged]).
Qed.

Lemma take_first_cost (cls : Kind) (query : string) (w : World) :
  within_cost 1 w (take_first cls query w).
Proof.
  rewrite take_first_run. destruct (endpoint w query) as [|p others].
  - exists [EvQuery query]. cbn [fst snd log logged].
    split; [reflexivity|]. split; [repeat constructor|].
    split; [repeat constructor|]. split; [repeat constructor|].
    split; [done|apply same_backing_logged].
  - destruct (items w !! page_title p); eexists; cbn [fst snd log logged];
      (split; [reflexivity|]); (split; [repeat constructor|]);
      (split; [repeat constructor|]); (split; [repeat constructor|]);
      (split; [discriminate|apply same_backing_logged]).
Qed.

Section Costs.
Context `{Vocabulary}.

Lemma Episode_next_in_series_cost (self : BaseType) (w : World) :
  within_cost 1 w (Episode.next_in_series self w).
Proof.
  rewrite Episode_next_in_series_run.
  destruct (Episode.ordinal_in_series self) as [[n|]|e];
    try apply within_cost_silent.
  destruct (Episode.part_of_the_series self) as [series|e];
    [apply take_first_cost|apply within_cost_silent].
Qed.

Lemma Episode_next_in_season_cost (self : BaseType) (w : World) :
  within_cost 1 w (Episode.next_in_season self w).
Proof.
  rewrite Episode_next_in_season_run.
  destruct (Episode.ordinal_in_season self) as [[n|]|e];
    try apply within_cost_silent.
  destruct (Episode.part_of_the_series self) as [series|e];
    [|apply within_cost_silent].
  destruct (Episode.season self) as [season|e];
    [apply take_first_cost|apply within_cost_silent].
Qed.

Lemma Season_next_in_series_cost (self : BaseType) (w : World) :
  within_cost 1 w (Season.next_in_series self w).
Proof.
  rewrite Season_next_in_series_run.
  destruct (Season.ordinal_in_series self) as [[n|]|e];
    try apply within_cost_silent.
  destruct (Season.part_of_the_series self) as [series|e];
    [apply take_first_cost|apply within_cost_silent].
Qed.

Lemma Episode_next_cost (self : BaseType) (w : World) :
  within_cost 2 w (Episode.next self w).
Proof.
  destruct (claims self !! pid FOLLOWED_BY) as [l|] eqn:Hfact.
  - rewrite (Episode_next_forward_run self w l Hfact).
    destruct l as [|c cs]; [apply within_cost_silent|].
    eapply within_cost_more; [|apply wrapped_cost]. lia.
  - rewrite (Episode_next_run self w Hfact).
    pose proof (take_first_cost KEpisode (follows_query self) w) as Hfirst.
    rewrite take_first_run in Hfirst |- *.
    destruct (endpoint w (follows_query self)) as [|p others].
    + apply (within_cost_after_query 1 (follows_query self)).
      destruct (Episode.ordinal_in_series self) as [[n|]|e];
        [apply Episode_next_in_series_cost| |apply within_cost_silent].
      destruct (Episode.ordinal_in_season self) as [[n|]|e];
        [apply Episode_next_in_season_cost|apply within_cost_silent..].
    + eapply within_cost_more; [|by destruct (items w !! page_title p)]. lia.
Qed.

Lemma Season_next_cost (self : BaseType) (w : World) :
  within_cost 2 w (Season.next self w).
Proof.
  destruct (claims self !! pid FOLLOWED_BY) as [l|] eqn:Hfact.
  - rewrite (Season_next_forward_run self w l Hfact).
    destruct l as [|c cs]; [apply within_cost_silent|].
    eapply within_cost_more; [|apply wrapped_cost]. lia.
  - rewrite (Season_next_run self w Hfact).
    pose proof (take_first_cost KSeason (follows_query self) w) as Hfirst.
    rewrite take_first_run in Hfirst |- *.
    destruct (endpoint w (follows_query self)) as [|p others].
    + apply (within_cost_after_query 1 (follows_query self)).
      destruct (Season.ordinal_in_series self) as [[n|]|e];
        [apply Season_next_in_series_cost|apply within_cost_silent..].
    + eapply within_cost_more; [|by destruct (items w !! page_title p)]. lia.
Qed.

End Costs.

(** X4. One call of [next] on an Episode or a Season asks the endpoint at
    most two queries, takes at most one element from a generator and
    reads the store at most once; when it answers that there is no
    successor it has taken no element and read nothing from the store.
    A call of [next_in_series] or [next_in_season] stays within one
    query.  None of them changes the store or the query service. *)
Theorem successor_search_cost `{Vocabulary} (self : BaseType) (w : World) :
  kind self ≠ KSeries →
  within_cost 2 w (next self w) ∧
  within_cost 1 w (next_in_series self w) ∧
  within_cost 1 w (Episode.next_in_season self w).
Proof.
  intros Hkind. unfold next, next_in_series.
  destruct (kind self); [done| |]; repeat split;
    auto using Episode_next_cost, Season_next_cost,
      Episode_next_in_series_cost, Season_next_in_series_cost,
      Episode_next_in_season_cost.
Qed.

Section Cost_examples.
#[local] Existing Instance wikidata.

Lemma successor_search_cost_witness :
  within_cost 2 season_only_world (next stranded_episode season_only_world) ∧
  queries (log (next stranded_episode season_only_world).2) = 2%nat ∧
  gets (log (next stranded_episode season_only_world).2) = 0%nat.
Proof.
  split; [|split; reflexivity].
  apply (successor_search_cost (H := wikidata) stranded_episode season_only_world).
  discriminate.
Defined.

End Cost_examples.

(** ** Ordinals read from the facts *)

Section Ordinal_facts.
Context `{Vocabulary}.

Ltac parsed_ordinal :=
  intros Hfact Hqual Hint; read_dicts; rewrite Hint; reflexivity.

Ltac malformed_ordinal :=
  intros Hfact Hqual Hint; read_dicts; rewrite Hint;
  by rewrite (int_raises _ _ Hint).

Lemma Episode_ordinal_in_series_parsed (self : BaseType)
    (c : Claim) (cs : list Claim) (q : Qualifier) (qs : list Qualifier) (n : Z) :
  claims self !! pid PART_OF_THE_SERIES = Some (c :: cs) →
  qualifiers c !! pid SERIES_ORDINAL = Some (q :: qs) →
  int (qualifier_getTarget q) = Ok n →
  Episode.ordinal_in_series self = Ok (Some n).
Proof. unfold Episode.ordinal_in_series. parsed_ordinal. Qed.

Lemma Episode_ordinal_in_season_parsed (self : BaseType)
    (c : Claim) (cs : list Claim) (q : Qualifier) (qs : list Qualifier) (n : Z) :
  claims self !! pid SEASON = Some (c :: cs) →
  qualifiers c !! pid SERIES_ORDINAL = Some (q :: qs) →
  int (qualifier_getTarget q) = Ok n →
  Episode.ordinal_in_season self = Ok (Some n).
Proof. unfold Episode.ordinal_in_season. parsed_ordinal. Qed.

Lemma Season_ordinal_in_series_parsed (self : BaseType)
    (c : Claim) (cs : list Claim) (q : Qualifier) (qs : list Qualifier) (n : Z) :
  claims self !! pid PART_OF_THE_SERIES = Some (c :: cs) →
  qualifiers c !! pid SERIES_ORDINAL = Some (q :: qs) →
  int (qualifier_getTarget q) = Ok n →
  Season.ordinal_in_series self = Ok (Some n).
Proof. unfold Season.ordinal_in_series. parsed_ordinal. Qed.

Lemma Episode_ordinal_in_series_malformed (self : BaseType)
    (c : Claim) (cs : list Claim) (q : Qualifier) (qs : list Qualifier) (e : Exn) :
  claims self !! pid PART_OF_THE_SERIES = Some (c :: cs) →
  qualifiers c !! pid SERIES_ORDINAL = Some (q :: qs) →
  int (qualifier_getTarget q) = Raise e →
  Episode.ordinal_in_series self = Raise ValueError.
Proof. unfold Episode.ordinal_in_series. malformed_ordinal. Qed.

Lemma Episode_ordinal_in_season_malformed (self : BaseType)
    (c : Claim) (cs : list Claim) (q : Qualifier) (qs : list Qualifier) (e : Exn) :
  claims self !! pid SEASON = Some (c :: cs) →
  qualifiers c !! pid SERIES_ORDINAL = Some (q :: qs) →
  int (qualifier_getTarget q) = Raise e →
  Episode.ordinal_in_season self = Raise ValueError.
Proof. unfold Episode.ordinal_in_season. malformed_ordinal. Qed.

Lemma Season_ordinal_in_series_malformed (self : BaseType)
    (c : Claim) (cs : list Claim) (q : Qualifier) (qs : list Qualifier) (e : Exn) :
  claims self !! pid PART_OF_THE_SERIES = Some (c :: cs) →
  qualifiers c !! pid SERIES_ORDINAL = Some (q :: qs) →
  int (qualifier_getTarget q) = Raise e →
  Season.ordinal_in_series self = Raise ValueError.
Proof. unfold Season.ordinal_in_series. malformed_ordinal. Qed.

Lemma Episode_ordinal_in_series_missing (self : BaseType) :
  claims self !! pid PART_OF_THE_SERIES = None →
  Episode.ordinal_in_series self = Ok None.
Proof. intros Hfact. unfold Episode.ordinal_in_series. by read_dicts. Qed.

Lemma Episode_part_of_the_series_found (self : BaseType) (c : Claim) (cs : list Claim) :
  claims self !! pid PART_OF_THE_SERIES = Some (c :: cs) →
  Episode.part_of_the_series self = Ok (Some (page_title (getTarget c))).
Proof. intros Hfact. unfold Episode.part_of_the_series. by read_dicts. Qed.

Lemma Season_part_of_the_series_found (self : BaseType) (c : Claim) (cs : list Claim) :
  claims self !! pid PART_OF_THE_SERIES = Some (c :: cs) →
  Season.part_of_the_series self = Ok (Some (page_title (getTarget c))).
Proof. intros Hfact. unfold Season.part_of_the_series. by read_dicts. Qed.

Lemma Episode_season_found (self : BaseType) (c : Claim) (cs : list Claim) :
  claims self !! pid SEASON = Some (c :: cs) →
  Episode.season self = Ok (Some (page_title (getTarget c))).
Proof. intros Hfact. unfold Episode.season. by read_dicts. Qed.

End Ordinal_facts.

(** ** An ordinal that does not parse *)

(** X5. An ordinal that does not parse makes [next] fail, but only once
    the explicit links have been tried: for an Episode or a Season with
    no followed-by fact whose reverse lookup finds nothing, a malformed
    ordinal on the first part-of-the-series fact makes [next] raise
    [ValueError] right after the reverse-lookup query, whatever the
    season fact holds; and for an Episode without a part-of-the-series
    fact, so does a malformed ordinal on the first season fact. *)
Theorem malformed_ordinal_surfaces `{Vocabulary}
    (self : BaseType) (w : World)
    (c : Claim) (cs : list Claim) (q : Qualifier) (qs : list Qualifier) (e : Exn) :
  kind self ≠ KSeries →
  claims self !! pid FOLLOWED_BY = None →
  endpoint w (follows_query self) = [] →
  qualifiers c !! pid SERIES_ORDINAL = Some (q :: qs) →
  int (qualifier_getTarget q) = Raise e →
  (claims self !! pid PART_OF_THE_SERIES = Some (c :: cs) →
   next self w = (Raise ValueError, logged w [EvQuery (follows_query self)])) ∧
  (kind self = KEpisode →
   claims self !! pid PART_OF_THE_SERIES = None →
   claims self !! pid SEASON = Some (c :: cs) →
   next self w = (Raise ValueError, logged w [EvQuery (follows_query self)])).
Proof.
  intros Hkind Hfact Hanswer Hqual Hint. unfold next. split.
  - intros Hseries. destruct (kind self); [done| |].
    + rewrite (Season_next_run self w Hfact), take_first_run, Hanswer.
      by rewrite (Season_ordinal_in_series_malformed self c cs q qs e).
    + rewrite (Episode_next_run self w Hfact), take_first_run, Hanswer.
      by rewrite (Episode_ordinal_in_series_malformed self c cs q qs e).
  - intros -> Hseries Hseason.
    rewrite (Episode_next_run self w Hfact), take_first_run, Hanswer.
    rewrite (Episode_ordinal_in_series_missing self Hseries).
    by rewrite (Episode_ordinal_in_season_malformed self c cs q qs e).
Qed.

Section Malformed_examples.
#[local] Existing Instance wikidata.

(** The season strategy would find Q11 for the episode, but its ordinal
    in the series reads [3a]. *)
Lemma malformed_ordinal_surfaces_witness :
  (Episode.next_in_season garbled_episode season_only_world).1
    = Ok (Some (entity KEpisode "Q11" ∅)) ∧
  next garbled_episode season_only_world
    = (Raise ValueError,
       logged season_only_world [EvQuery (follows_query garbled_episode)]).
Proof.
  split; [reflexivity|].
  destruct (malformed_ordinal_surfaces (H := wikidata)
              garbled_episode season_only_world
              (numbered "Q1" "3a") [] {| qualifier_getTarget := "3a" |} []
              ValueError ltac:(discriminate) eq_refl eq_refl eq_refl eq_refl)
    as [Hseries _].
  apply Hseries. reflexivity.
Defined.

End Malformed_examples.

(** ** The queries of the ordinal strategies *)

(** [int] reads back what [str] writes. *)

Lemma lstrip_nonspace (l : list ascii) :
  Forall (λ c, Py.isspace c = false) l → Py.lstrip l = l.
Proof.
  intros Hl. destruct Hl as [|c l Hc Hl]; [reflexivity|]. cbn. by rewrite Hc.
Qed.

Lemma strip_nonspace (l : list ascii) :
  Forall (λ c, Py.isspace c = false) l → Py.strip l = l.
Proof.
  intros Hl. unfold Py.strip. rewrite (lstrip_nonspace l Hl).
  rewrite lstrip_nonspace by (by apply List.Forall_rev).
  apply List.rev_involutive.
Qed.

Ltac eval_digit :=
  match goal with
  | |- context [Py.digit ?c] =>
      let v := eval vm_compute in (Py.digit c) in
      change (Py.digit c) with v; cbv beta iota
  end.

Ltac eval_sign_test :=
  repeat match goal with
    | |- context [(nat_of_ascii ?c =? ?k)%nat] =>
        let v := eval vm_compute in (nat_of_ascii c =? k)%nat in
        change (nat_of_ascii c =? k)%nat with v; cbv beta iota
    end.

Lemma digits_acc (d : Decimal.uint) (acc : positive) :
  Py.digits (Zpos acc) true
    (String.list_ascii_of_string (NilEmpty.string_of_uint d))
    = Some (Zpos (Pos.of_uint_acc d acc)).
Proof.
  revert acc. induction d; intros acc;
    cbn [NilEmpty.string_of_uint String.list_ascii_of_string
         Py.digits Pos.of_uint_acc];
    [reflexivity|..]; eval_digit;
    match goal with
    | |- Py.digits ?z true _ = Some (Zpos (Pos.of_uint_acc _ ?a)) =>
        replace z with (Zpos a) by lia
    end; apply IHd.
Qed.

Lemma digits_zero (d : Decimal.uint) :
  Py.digits 0 true (String.list_ascii_of_string (NilEmpty.string_of_uint d))
    = Some (Z.of_N (Pos.of_uint d)).
Proof.
  induction d;
    cbn [NilEmpty.string_of_uint String.list_ascii_of_string
         Py.digits Pos.of_uint];
    [reflexivity|..]; eval_digit; [exact IHd|..]; apply digits_acc.
Qed.

Lemma digits_start (d : Decimal.uint) :
  d ≠ Decimal.Nil →
  Py.digits 0 false (String.list_ascii_of_string (NilEmpty.string_of_uint d))
    = Some (Z.of_N (Pos.of_uint d)).
Proof.
  intros Hd. rewrite <- digits_zero. destruct d; [done|..]; reflexivity.
Qed.

Lemma digits_nonspace (d : Decimal.uint) :
  Forall (λ c, Py.isspace c = false)
    (String.list_ascii_of_string (NilEmpty.string_of_uint d)).
Proof. induction d; cbn; constructor; done. Qed.

Lemma int_of_digits (d : Decimal.uint) :
  d ≠ Decimal.Nil →
  Py.int (NilEmpty.string_of_uint d) = Ok (Z.of_N (Pos.of_uint d)).
Proof.
  intros Hd. unfold Py.int.
  rewrite (strip_nonspace _ (digits_nonspace d)).
  pose proof (digits_start d Hd) as Hdigits.
  destruct d; [done|..];
    cbn [NilEmpty.string_of_uint String.list_ascii_of_string] in *;
    eval_sign_test; by rewrite Hdigits.
Qed.

Lemma int_of_minus_digits (d : Decimal.uint) :
  d ≠ Decimal.Nil →
  Py.int (String "-" (NilEmpty.string_of_uint d))
    = Ok (- Z.of_N (Pos.of_uint d))%Z.
Proof.
  intros Hd. unfold Py.int. cbn [String.list_ascii_of_string].
  rewrite strip_nonspace by (constructor; [done|apply digits_nonspace]).
  eval_sign_test. by rewrite (digits_start d Hd).
Qed.

Lemma string_of_nonnil (d : Decimal.uint) :
  d ≠ Decimal.Nil → NilZero.string_of_uint d = NilEmpty.string_of_uint d.
Proof. intros Hd. by destruct d. Qed.

Lemma int_str_of_int (n : Z) : Py.int (str_of_int n) = Ok n.
Proof.
  unfold str_of_int. destruct n as [|p|p]; [reflexivity|..];
    cbn [Z.to_int NilZero.string_of_int];
    pose proof (DecimalPos.Unsigned.to_uint_nonnil p) as Hnil;
    pose proof (DecimalPos.Unsigned.of_to p) as Hvalue;
    rewrite (string_of_nonnil _ Hnil).
  - by rewrite (int_of_digits _ Hnil), Hvalue.
  - by rewrite (int_of_minus_digits _ Hnil), Hvalue.
Qed.

(** X6. What an ordinal strategy asks.  Without a resolvable ordinal,
    [next_in_series] and [next_in_season] answer absent and call nothing.
    With the ordinal [n] read off the first part-of-the-series fact,
    [next_in_series] is one query, first answer taken, whose text is
    written out below: it names the series that this same fact points at
    and, between double quotes, the decimal text of [n + 1], which [int]
    reads back as [n + 1].  With the ordinal [n] read off the first
    season fact, [next_in_season] of an Episode is one query, first answer
    taken, whose text names the season that this fact points at, whatever
    [part_of_the_series] gives for the series, and the decimal text of
    [n + 1]. *)
Theorem ordinal_strategy_queries `{Vocabulary}
    (self : BaseType) (w : World)
    (c : Claim) (cs : list Claim) (q : Qualifier) (qs : list Qualifier) (n : Z) :
  kind self ≠ KSeries →
  qualifiers c !! pid SERIES_ORDINAL = Some (q :: qs) →
  int (qualifier_getTarget q) = Ok n →
  int (str_of_int (n + 1)) = Ok (n + 1)%Z ∧
  (ordinal_in_series self = Ok None → next_in_series self w = (Ok None, w)) ∧
  (claims self !! pid PART_OF_THE_SERIES = Some (c :: cs) →
   next_in_series self w =
     first_answer_outcome (kind self)
       ("SELECT ?item WHERE {" +:+ newline +:+
        "            ?item wdt:" +:+ pid PART_OF_THE_SERIES +:+ " wd:" +:+
          page_title (getTarget c) +:+ "." +:+ newline +:+
        "            ?item p:" +:+ pid PART_OF_THE_SERIES +:+ "/pq:" +:+
          pid SERIES_ORDINAL +:+ " " +:+
          dquote +:+ str_of_int (n + 1) +:+ dquote +:+ newline +:+
        "            }" +:+ newline +:+
        "        ") w) ∧
  (kind self = KEpisode →
   Episode.ordinal_in_season self = Ok None →
   Episode.next_in_season self w = (Ok None, w)) ∧
  (kind self = KEpisode →
   claims self !! pid SEASON = Some (c :: cs) →
   ∀ series, Episode.part_of_the_series self = Ok series →
   Episode.next_in_season self w =
     first_answer_outcome KEpisode
       ("SELECT ?item WHERE {" +:+ newline +:+
        "            ?item wdt:" +:+ pid PART_OF_THE_SERIES +:+ " wd:" +:+
          str_of_optional series +:+ "." +:+ newline +:+
        "            ?item wdt:" +:+ pid SEASON +:+ " wd:" +:+
          page_title (getTarget c) +:+ "." +:+ newline +:+
        "            ?item p:" +:+ pid SEASON +:+ "/pq:" +:+
          pid SERIES_ORDINAL +:+ " " +:+
          dquote +:+ str_of_int (n + 1) +:+ dquote +:+ newline +:+
        "            }" +:+ newline +:+
        "        ") w).
Proof.
  intros Hkind Hqual Hint. unfold ordinal_in_series, next_in_series.
  split; [apply int_str_of_int|]. split; [|split; [|split]].
  - destruct (kind self); [done| |]; intros Hnone.
    + by rewrite Season_next_in_series_run, Hnone.
    + by rewrite Episode_next_in_series_run, Hnone.
  - intros Hfact. destruct (kind self); [done| |].
    + rewrite Season_next_in_series_run.
      rewrite (Season_ordinal_in_series_parsed self c cs q qs n) by done.
      rewrite (Season_part_of_the_series_found self c cs) by done.
      apply take_first_run.
    + rewrite Episode_next_in_series_run.
      rewrite (Episode_ordinal_in_series_parsed self c cs q qs n) by done.
      rewrite (Episode_part_of_the_series_found self c cs) by done.
      apply take_first_run.
  - intros _ Hnone. by rewrite Episode_next_in_season_run, Hnone.
  - intros _ Hfact series Hseries. rewrite Episode_next_in_season_run.
    rewrite (Episode_ordinal_in_season_parsed self c cs q qs n) by done.
    rewrite Hseries, (Episode_season_found self c cs) by done.
    apply take_first_run.
Qed.

Section Strategy_query_examples.
#[local] Existing Instance wikidata.

Lemma ordinal_strategy_queries_witness :
  next_in_series first_season duplicate_world
    = (Ok (Some (entity KSeason "Q3" ∅)),
       logged duplicate_world
         [EvQuery (Season.series_query (Some "Q1") 1); EvYield (page "Q3");
          EvGet "Q3"; EvSite]).
Proof.
  destruct (ordinal_strategy_queries (H := wikidata)
              first_season duplicate_world
              (numbered "Q1" "1") [] {| qualifier_getTarget := "1" |} [] 1%Z
              ltac:(discriminate) eq_refl eq_refl)
    as (_ & _ & Hseries & _).
  rewrite (Hseries eq_refl). reflexivity.
Defined.

End Strategy_query_examples.

(** ** Seasons and episodes of one series *)

Lemma take_first_as_kind (cls cls' : Kind) (query : string) (w : World) :
  take_first cls' query w = outcome_as_kind cls' (take_first cls query w).
Proof.
  rewrite !take_first_run. destruct (endpoint w query) as [|p others]; [reflexivity|].
  by destruct (items w !! page_title p).
Qed.

(** X7. The series query does not tell seasons from episodes.  A Season
    and an Episode that have the same ordinal in the same series send the
    same query, so [next_in_series] gives both the same item, the first
    answer, with the same calls; only the class it is wrapped in
    differs. *)
Theorem series_query_ignores_kind `{Vocabulary}
    (episode season : BaseType) (w : World) (n : Z) (series : option string) :
  Episode.ordinal_in_series episode = Ok (Some n) →
  Season.ordinal_in_series season = Ok (Some n) →
  Episode.part_of_the_series episode = Ok series →
  Season.part_of_the_series season = Ok series →
  Season.next_in_series season w
    = outcome_as_kind KSeason (Episode.next_in_series episode w).
Proof.
  intros Hepisode Hseason Hof_episode Hof_season.
  rewrite Season_next_in_series_run, Episode_next_in_series_run.
  rewrite Hepisode, Hseason, Hof_episode, Hof_season.
  apply take_first_as_kind.
Qed.

Section Kind_blind_examples.
#[local] Existing Instance wikidata.

(** An episode numbered 1 in series Q1 gets season Q3 as its successor. *)
Lemma series_query_ignores_kind_witness :
  (Episode.next_in_series
     (entity KEpisode "Q10" {[ "P179" := [numbered "Q1" "1"] ]})
     duplicate_world).1
    = Ok (Some (entity KEpisode "Q3" ∅)) ∧
  Season.next_in_series first_season duplicate_world
    = outcome_as_kind KSeason
        (Episode.next_in_series
           (entity KEpisode "Q10" {[ "P179" := [numbered "Q1" "1"] ]})
           duplicate_world).
Proof.
  split; [reflexivity|].
  apply (series_query_ignores_kind (H := wikidata) _ _ _ 1%Z (Some "Q1"));
    reflexivity.
Defined.

End Kind_blind_examples.

(** ** Statements after the first *)

Lemma contains_fmap {A B} (f : A → B) (d : gmap string A) (k : string) :
  contains (f <$> d) k = contains d k.
Proof. unfold contains. rewrite lookup_fmap. by destruct (d !! k). Qed.

Lemma getitem_fmap {A B} (f : A → B) (d : gmap string A) (k : string) :
  getitem (f <$> d) k =
    match getitem d k with
    | Ok v => Ok (f v)
    | Raise e => Raise e
    end.
Proof. unfold getitem. rewrite lookup_fmap. by destruct (d !! k). Qed.

Section First_statements.
Context `{Vocabulary}.

Ltac same_ordinal :=
  cbn [claims first_statements]; rewrite contains_fmap, getitem_fmap;
  match goal with
  | |- context [contains (claims ?self) ?k] =>
      destruct (contains (claims self) k); cbn [negb]; [|reflexivity];
      destruct (getitem (claims self) k) as [[|c cs]|e]; cbn; try reflexivity
  end;
  rewrite contains_fmap, getitem_fmap;
  match goal with
  | |- context [contains (qualifiers ?c) ?k] =>
      destruct (contains (qualifiers c) k); cbn [negb]; [|reflexivity];
      by destruct (getitem (qualifiers c) k) as [[|q qs]|e]
  end.

Ltac same_identifier :=
  cbn [claims first_statements]; rewrite contains_fmap, getitem_fmap;
  match goal with
  | |- context [contains (claims ?self) ?k] =>
      destruct (contains (claims self) k); cbn [negb]; [|reflexivity];
      by destruct (getitem (claims self) k) as [[|c cs]|e]
  end.

Lemma Episode_ordinal_in_series_first (self : BaseType) :
  Episode.ordinal_in_series (first_statements self) = Episode.ordinal_in_series self.
Proof. unfold Episode.ordinal_in_series. same_ordinal. Qed.

Lemma Episode_ordinal_in_season_first (self : BaseType) :
  Episode.ordinal_in_season (first_statements self) = Episode.ordinal_in_season self.
Proof. unfold Episode.ordinal_in_season. same_ordinal. Qed.

Lemma Season_ordinal_in_series_first (self : BaseType) :
  Season.ordinal_in_series (first_statements self) = Season.ordinal_in_series self.
Proof. unfold Season.ordinal_in_series. same_ordinal. Qed.

Lemma Episode_part_of_the_series_first (self : BaseType) :
  Episode.part_of_the_series (first_statements self) = Episode.part_of_the_series self.
Proof. unfold Episode.part_of_the_series. same_identifier. Qed.

Lemma Episode_season_first (self : BaseType) :
  Episode.season (first_statements self) = Episode.season self.
Proof. unfold Episode.season. same_identifier. Qed.

Lemma Season_part_of_the_series_first (self : BaseType) :
  Season.part_of_the_series (first_statements self) = Season.part_of_the_series self.
Proof. unfold Season.part_of_the_series. same_identifier. Qed.

Lemma Episode_parent_first (self : BaseType) (w : World) :
  Episode.parent (first_statements self) w = Episode.parent self w.
Proof.
  unfold Episode.parent. rewrite !bind_run. unfold lift.
  cbn [claims first_statements]. rewrite getitem_fmap.
  by destruct (getitem (claims self) _) as [[|c cs]|e].
Qed.

Lemma Season_parent_first (self : BaseType) (w : World) :
  Season.parent (first_statements self) w = Season.parent self w.
Proof.
  unfold Season.parent. rewrite !bind_run. unfold lift.
  cbn [claims first_statements]. rewrite getitem_fmap.
  by destruct (getitem (claims self) _) as [[|c cs]|e].
Qed.

Lemma Episode_next_in_series_first (self : BaseType) (w : World) :
  Episode.next_in_series (first_statements self) w = Episode.next_in_series self w.
Proof.
  rewrite !Episode_next_in_series_run.
  by rewrite Episode_ordinal_in_series_first, Episode_part_of_the_series_first.
Qed.

Lemma Episode_next_in_season_first (self : BaseType) (w : World) :
  Episode.next_in_season (first_statements self) w = Episode.next_in_season self w.
Proof.
  rewrite !Episode_next_in_season_run.
  by rewrite Episode_ordinal_in_season_first, Episode_part_of_the_series_first,
    Episode_season_first.
Qed.

Lemma Season_next_in_series_first (self : BaseType) (w : World) :
  Season.next_in_series (first_statements self) w = Season.next_in_series self w.
Proof.
  rewrite !Season_next_in_series_run.
  by rewrite Season_ordinal_in_series_first, Season_part_of_the_series_first.
Qed.

Lemma first_statements_lookup (self : BaseType) (k : string) :
  claims (first_statements self) !! k
    = (λ l, first_qualifiers <$> take 1 l) <$> (claims self !! k).
Proof. cbn [claims first_statements]. apply lookup_fmap. Qed.

Lemma Episode_next_first (self : BaseType) (w : World) :
  Episode.next (first_statements self) w = Episode.next self w.
Proof.
  destruct (claims self !! pid FOLLOWED_BY) as [l|] eqn:Hfact.
  - assert (Hfirst : claims (first_statements self) !! pid FOLLOWED_BY
                       = Some (first_qualifiers <$> take 1 l))
      by (by rewrite first_statements_lookup, Hfact).
    rewrite (Episode_next_forward_run _ w _ Hfirst).
    rewrite (Episode_next_forward_run self w l Hfact). by destruct l.
  - assert (Hfirst : claims (first_statements self) !! pid FOLLOWED_BY = None)
      by (by rewrite first_statements_lookup, Hfact).
    rewrite (Episode_next_run _ w Hfirst), (Episode_next_run self w Hfact).
    change (follows_query (first_statements self)) with (follows_query self).
    destruct (take_first _ _ w) as [[[found|]|e] w1]; try reflexivity.
    rewrite Episode_ordinal_in_series_first, Episode_ordinal_in_season_first.
    by rewrite Episode_next_in_series_first, Episode_next_in_season_first.
Qed.

Lemma Season_next_first (self : BaseType) (w : World) :
  Season.next (first_statements self) w = Season.next self w.
Proof.
  destruct (claims self !! pid FOLLOWED_BY) as [l|] eqn:Hfact.
  - assert (Hfirst : claims (first_statements self) !! pid FOLLOWED_BY
                       = Some (first_qualifiers <$> take 1 l))
      by (by rewrite first_statements_lookup, Hfact).
    rewrite (Season_next_forward_run _ w _ Hfirst).
    rewrite (Season_next_forward_run self w l Hfact). by destruct l.
  - assert (Hfirst : claims (first_statements self) !! pid FOLLOWED_BY = None)
      by (by rewrite first_statements_lookup, Hfact).
    rewrite (Season_next_run _ w Hfirst), (Season_next_run self w Hfact).
    change (follows_query (first_statements self)) with (follows_query self).
    destruct (take_first _ _ w) as [[[found|]|e] w1]; try reflexivity.
    by rewrite Season_ordinal_in_series_first, Season_next_in_series_first.
Qed.

End First_statements.

(** X8. Only the first statement of a property is ever read, and only the
    first value of its series-ordinal qualifier: dropping every later
    statement and every later qualifier value from an instance changes
    neither its ordinals, nor its parent, nor its successor, nor any call
    these make. *)
Theorem only_first_statements_matter `{Vocabulary} (self : BaseType) (w : World) :
  ordinal_in_series (first_statements self) = ordinal_in_series self ∧
  Episode.ordinal_in_season (first_statements self)
    = Episode.ordinal_in_season self ∧
  parent (first_statements self) w = parent self w ∧
  next (first_statements self) w = next self w ∧
  next_in_series (first_statements self) w = next_in_series self w ∧
  Episode.next_in_season (first_statements self) w
    = Episode.next_in_season self w.
Proof.
  unfold ordinal_in_series, parent, next, next_in_series.
  change (kind (first_statements self)) with (kind self).
  repeat split; try destruct (kind self);
    auto using Episode_ordinal_in_series_first, Episode_ordinal_in_season_first,
      Season_ordinal_in_series_first, Episode_parent_first, Season_parent_first,
      Episode_next_first, Season_next_first, Episode_next_in_series_first,
      Season_next_in_series_first, Episode_next_in_season_first.
Qed.

Section First_statement_examples.
#[local] Existing Instance wikidata.

Example ordinal_of_crowded_episode :
  Episode.ordinal_in_season crowded_episode = Ok (Some 3%Z) ∧
  first_statements crowded_episode
    = entity KEpisode "Q10" {[ "P4908" := [numbered "Q2" "3"] ]}.
Proof. split; [reflexivity|]. vm_compute. reflexivity. Qed.

End First_statement_examples.

(** ** A successor that does not load *)

(** X9. A link that is found but does not load is an error, not a
    reason to go on to the next strategy.  When the store does not have
    the target of the first followed-by fact, [next] raises [NoPageError]
    after its one store read and asks the endpoint nothing; without a
    followed-by fact, when the store does not have the first answer of
    the reverse lookup, [next] raises [NoPageError] after that one query
    and never tries the ordinals. *)
Theorem dangling_successor_raises `{Vocabulary} (self : BaseType) (w : World) :
  kind self ≠ KSeries →
  (∀ c cs,
     claims self !! pid FOLLOWED_BY = Some (c :: cs) →
     items w !! page_title (getTarget c) = None →
     next self w =
       (Raise (NoPageError (page_title (getTarget c))),
        logged w [EvGet (page_title (getTarget c))])) ∧
  (claims self !! pid FOLLOWED_BY = None →
   ∀ p others,
     endpoint w (follows_query self) = p :: others →
     items w !! page_title p = None →
     next self w =
       (Raise (NoPageError (page_title p)),
        logged w [EvQuery (follows_query self); EvYield p; EvGet (page_title p)])).
Proof.
  intros Hkind. unfold next. split.
  - intros c cs Hfact Hitem. destruct (kind self); [done| |].
    + by rewrite (Season_next_forward_run self w _ Hfact), wrapped_run, Hitem.
    + by rewrite (Episode_next_forward_run self w _ Hfact), wrapped_run, Hitem.
  - intros Hfact p others Hanswer Hitem. destruct (kind self); [done| |].
    + rewrite (Season_next_reverse_run self w p others Hfact Hanswer).
      rewrite wrapped_run. cbn [items logged]. by rewrite Hitem, logged_logged.
    + rewrite (Episode_next_reverse_run self w p others Hfact Hanswer).
      rewrite wrapped_run. cbn [items logged]. by rewrite Hitem, logged_logged.
Qed.

Section Dangling_examples.
#[local] Existing Instance wikidata.

(** Episode Q10 is followed by Q11, which the store does not have; the
    endpoint is never asked. *)
Lemma dangling_successor_raises_witness :
  next linked_episode (world ∅ (λ _, [page "Q99"]))
    = (Raise (NoPageError "Q11"),
       logged (world ∅ (λ _, [page "Q99"])) [EvGet "Q11"]).
Proof.
  destruct (dangling_successor_raises (H := wikidata) linked_episode
              (world ∅ (λ _, [page "Q99"])) ltac:(discriminate))
    as [Hforward _].
  apply (Hforward (plain "Q11") []); reflexivity.
Defined.

End Dangling_examples.
